(** * RAMCloud: the coordinator client and the mock driver

    A shallow embedding of [src/CoordinatorClient.cc] (the client side of the
    coordinator protocol: for each operation a constructor that encodes and
    sends the request, a [wait] that decodes the response, and a synchronous
    facade that does both) and of [src/MockDriver.cc] (the driver stand-in
    used by unit tests), followed by the properties the specification states
    about them.

    Effects are explicit.  A client computation is a function from a [World]
    (the transport, the heap of protocol-buffer objects the caller owns, and
    the chronological list of the calls made to collaborators) to a new world
    and an [Outcome]: a normal return, a thrown [ClientException], a process
    exit, or undefined behaviour (a dereferenced dangling pointer). *)

From Stdlib Require Import ZArith String Ascii List Lia Bool.
From Stdlib Require DecimalString DecimalPos DecimalN DecimalZ.
From Stdlib Require HexadecimalString HexadecimalPos HexadecimalN.
From stdpp Require Import base gmap list strings.

Import ListNotations.
Local Open Scope Z_scope.

Set Implicit Arguments.

(** ** Values shared by both files *)

(** The [Status] enumeration (Status.h) travels as an integer. *)
Definition Status := Z.

(** Object addresses; [NULL] is address zero. *)
Definition Ptr := N.
Definition NULL : Ptr := 0%N.

Definition uint32_max : Z := 2 ^ 32.
Definition uint64_max : Z := 2 ^ 64.

(** Modelled from the spec: ServerId.h is missing.  A ServerId is "a 64-bit
    identifier composed of a sequence number and a generation counter;
    'invalid' is a distinguished sentinel value".  The client only builds one
    from its 64-bit value and reads that value back ([getId]); the sequence
    slot sits in the low half, the generation in the high half, and the
    sentinel is the all-ones generation. *)
Record ServerId := mkServerId { getId : Z }.

Definition indexNumber (s : ServerId) : Z := Z.land (getId s) (uint32_max - 1).

(** ** Wire format *)

Module WireFormat.

(** Modelled from the spec: WireFormat.h and ServiceMask.h are missing.  A
    capability is a named service; the two the client names are the master
    and the backup service. *)
Inductive ServiceType :=
| MASTER_SERVICE
| BACKUP_SERVICE
| COORDINATOR_SERVICE
| PING_SERVICE
| MEMBERSHIP_SERVICE.

Definition serviceBit (s : ServiceType) : Z :=
  match s with
  | MASTER_SERVICE => 0
  | BACKUP_SERVICE => 1
  | COORDINATOR_SERVICE => 2
  | PING_SERVICE => 3
  | MEMBERSHIP_SERVICE => 4
  end.

(** The operation-type discriminator every request starts with. *)
Inductive Opcode :=
| ENLIST_SERVER
| GET_SERVER_LIST
| GET_TABLET_MAP
| HINT_SERVER_DOWN
| REASSIGN_TABLET_OWNERSHIP
| RECOVERY_MASTER_FINISHED
| SET_MASTER_RECOVERY_INFO
| VERIFY_MEMBERSHIP.

(** Every response header starts with the status code. *)
Record ResponseCommon := { status : Status }.

Module EnlistServer.
Record Request := {
  replacesId : Z;
  serviceMask : Z;
  readSpeed : Z;
  serviceLocatorLength : Z
}.
Record Response := { common : ResponseCommon; serverId : Z }.
End EnlistServer.

Module GetServerList.
Record Request := { serviceMask : Z }.
Record Response := { common : ResponseCommon; serverListLength : Z }.
End GetServerList.

Module GetTabletMap.
Record Response := { common : ResponseCommon; tabletMapLength : Z }.
End GetTabletMap.

Module HintServerDown.
Record Request := { serverId : Z }.
Record Response := { common : ResponseCommon }.
End HintServerDown.

Module ReassignTabletOwnership.
Record Request := {
  tableId : Z;
  firstKeyHash : Z;
  lastKeyHash : Z;
  newOwnerId : Z;
  ctimeSegmentId : Z;
  ctimeSegmentOffset : Z
}.
Record Response := { common : ResponseCommon }.
End ReassignTabletOwnership.

Module RecoveryMasterFinished.
Record Request := {
  recoveryId : Z;
  recoveryMasterId : Z;
  tabletsLength : Z;
  successful : bool
}.
Record Response := { common : ResponseCommon }.
End RecoveryMasterFinished.

Module SetMasterRecoveryInfo.
Record Request := { serverId : Z; infoLength : Z }.
Record Response := { common : ResponseCommon }.
End SetMasterRecoveryInfo.

Module VerifyMembership.
Record Request := { serverId : Z }.
Record Response := { common : ResponseCommon }.
End VerifyMembership.

(** A request header: the discriminator together with the fixed fields of
    that operation.  The tablet-map request has the discriminator only. *)
Inductive RequestHeader :=
| ReqEnlistServer (h : EnlistServer.Request)
| ReqGetServerList (h : GetServerList.Request)
| ReqGetTabletMap
| ReqHintServerDown (h : HintServerDown.Request)
| ReqReassignTabletOwnership (h : ReassignTabletOwnership.Request)
| ReqRecoveryMasterFinished (h : RecoveryMasterFinished.Request)
| ReqSetMasterRecoveryInfo (h : SetMasterRecoveryInfo.Request)
| ReqVerifyMembership (h : VerifyMembership.Request).

Definition opcode (h : RequestHeader) : Opcode :=
  match h with
  | ReqEnlistServer _ => ENLIST_SERVER
  | ReqGetServerList _ => GET_SERVER_LIST
  | ReqGetTabletMap => GET_TABLET_MAP
  | ReqHintServerDown _ => HINT_SERVER_DOWN
  | ReqReassignTabletOwnership _ => REASSIGN_TABLET_OWNERSHIP
  | ReqRecoveryMasterFinished _ => RECOVERY_MASTER_FINISHED
  | ReqSetMasterRecoveryInfo _ => SET_MASTER_RECOVERY_INFO
  | ReqVerifyMembership _ => VERIFY_MEMBERSHIP
  end.

(** The response header type of each operation. *)
Definition ResponseOf (op : Opcode) : Type :=
  match op with
  | ENLIST_SERVER => EnlistServer.Response
  | GET_SERVER_LIST => GetServerList.Response
  | GET_TABLET_MAP => GetTabletMap.Response
  | HINT_SERVER_DOWN => HintServerDown.Response
  | REASSIGN_TABLET_OWNERSHIP => ReassignTabletOwnership.Response
  | RECOVERY_MASTER_FINISHED => RecoveryMasterFinished.Response
  | SET_MASTER_RECOVERY_INFO => SetMasterRecoveryInfo.Response
  | VERIFY_MEMBERSHIP => VerifyMembership.Response
  end.

(** The common part of a response header, whatever the operation. *)
Definition commonOf (op : Opcode) : ResponseOf op -> ResponseCommon :=
  match op with
  | ENLIST_SERVER => EnlistServer.common
  | GET_SERVER_LIST => GetServerList.common
  | GET_TABLET_MAP => GetTabletMap.common
  | HINT_SERVER_DOWN => HintServerDown.common
  | REASSIGN_TABLET_OWNERSHIP => ReassignTabletOwnership.common
  | RECOVERY_MASTER_FINISHED => RecoveryMasterFinished.common
  | SET_MASTER_RECOVERY_INFO => SetMasterRecoveryInfo.common
  | VERIFY_MEMBERSHIP => VerifyMembership.common
  end.

End WireFormat.

Import WireFormat.

(** Modelled from the spec: ServiceMask.h is missing.  A ServiceMask is "a set
    of named service capabilities ... serialized as a compact bitmask on the
    wire": one bit per service, set by the constructor for every service of
    its initializer list. *)
Record ServiceMask := mkServiceMask { mask : Z }.

Definition ServiceMask_of (services : list ServiceType) : ServiceMask :=
  mkServiceMask
    (fold_left (fun m s => Z.lor m (Z.shiftl 1 (serviceBit s))) services 0).

Definition has (m : ServiceMask) (s : ServiceType) : bool :=
  Z.testbit (mask m) (serviceBit s).

Definition serialize (m : ServiceMask) : Z := mask m.

(** ** Buffers *)

(** A request [Buffer] is the sequence of chunks appended to it: the header
    that [allocHeader] puts first, then character arrays appended with
    [new(&request, APPEND) char[n]] or by the protocol-buffer serializer. *)
Inductive Chunk :=
| Header (h : RequestHeader)
| Chars (cs : list ascii).

Definition Buffer := list Chunk.

(** The header a request starts with, if it has one. *)
Definition requestHeader (b : Buffer) : option RequestHeader :=
  match b with
  | Header h :: _ => Some h
  | _ => None
  end.

(** Everything after the header. *)
Definition requestTrailer (b : Buffer) : list Chunk :=
  match b with
  | Header _ :: rest => rest
  | _ => b
  end.

(** A response as the client reads it once the RPC has finished: the header of
    the operation, and the bytes after it. *)
Record Reply (op : Opcode) := mkReply {
  header : ResponseOf op;
  payload : list ascii
}.

Definition replyStatus {op : Opcode} (r : Reply op) : Status :=
  status (commonOf op (header r)).

(** ** The C library's strncpy *)

(** [strncpy(dest, src, n)] writes exactly [n] characters: those of [src] up
    to its first NUL, then NUL characters to fill. *)
Fixpoint strncpy (src : list ascii) (n : nat) : list ascii :=
  match n with
  | O => []
  | S n' =>
      match src with
      | [] => repeat zero (S n')
      | c :: rest =>
          if Ascii.eqb c zero then repeat zero (S n')
          else c :: strncpy rest n'
      end
  end.

(** [std::string::c_str]: the characters and the terminating NUL. *)
Definition c_str (s : string) : list ascii :=
  list_ascii_of_string s ++ [zero].

(** The handle of a request the transport has taken. *)
Definition Ticket := N.

(** ** Calls made to collaborators, in the order they happen *)

Inductive LogLevel := ERROR | WARNING | NOTICE | DEBUG.

Inductive Event :=
| EvLog (level : LogLevel) (format : string) (args : list ServerId)
| EvAllocHeader (op : Opcode)
| EvAppend (n : Z)
| EvSerializeToRequest
| EvSend (t : Ticket) (request : Buffer)
| EvWaitInternal (t : Ticket)
| EvParseFromResponse (offset length : Z) (target : Ptr).

(** ** Outcomes *)

Inductive Outcome (A : Type) :=
| Returned (a : A)
| Thrown (s : Status)
| Exited (code : Z)
| Undefined.

Arguments Returned {A} a.
Arguments Thrown {A} s.
Arguments Exited {A} code.
Arguments Undefined {A}.

(** The object behind every [...Rpc] class once its constructor has run: the
    request it built and the handle of the exchange the transport started for
    it. *)
Record CoordinatorRpcWrapper := mkRpc {
  request : Buffer;
  ticket : Ticket
}.

(** ** External collaborators *)

(** Modelled from the spec: CoordinatorRpcWrapper, RpcWrapper and the session
    to the coordinator are missing, and so are the headers named below; this
    class is what the client takes from them.  The transport takes a request
    without waiting for its response ("hands it to the transport for delivery"), and
    completion "blocks ... until the coordinator replies"; when it returns the
    response holds a full header of the operation's response type (the length
    each constructor passes to CoordinatorRpcWrapper).

    [Message] is [google::protobuf::Message], the base class of
    ProtoBuf::ServerList, ProtoBuf::Tablets and ProtoBuf::MasterRecoveryInfo.
    Status.h is missing: [STATUS_OK] and [STATUS_CALLER_NOT_IN_CLUSTER] are
    the two codes the client names.  Common.h is missing: [downCast_uint32]
    is [downCast<uint32_t>], which returns its argument when that fits in 32
    bits.  WireFormat.h is missing: [sizeof_Response] is [sizeof] of each
    response header.  ProtoBuf.h is missing: [parseFromResponse] decodes a
    response trailer into a message object, and [serializeToRequest] gives
    the characters the encoder appends to the request and the length it
    returns. *)
Class Collaborators := {
  Net : Type;
  sendRequest : Buffer -> Net -> Net * Ticket;
  awaitReply : forall op : Opcode, Ticket -> Net -> Net * Reply op;
  Message : Type;
  STATUS_OK : Status;
  STATUS_CALLER_NOT_IN_CLUSTER : Status;
  downCast_uint32 : Z -> Z;
  sizeof_Response : Opcode -> Z;
  parseFromResponse :
    forall op : Opcode, Reply op -> Z -> Z -> Message -> Message;
  serializeToRequest : Message -> list ascii * Z
}.

(** ** CoordinatorClient.cc *)

Section CoordinatorClient.

Context `{C : Collaborators}.

Record World := mkWorld {
  net : Net;
  heap : gmap Ptr Message;
  trace : list Event
}.

Definition M (A : Type) : Type := World -> World * Outcome A.

Definition ret {A : Type} (a : A) : M A := fun w => (w, Returned a).

Definition bind {A B : Type} (m : M A) (k : A -> M B) : M B :=
  fun w =>
    match m w with
    | (w', Returned a) => k a w'
    | (w', Thrown s) => (w', Thrown s)
    | (w', Exited c) => (w', Exited c)
    | (w', Undefined) => (w', Undefined)
    end.

#[global] Instance M_ret : MRet M := @ret.
#[global] Instance M_bind : MBind M := fun A B k m => bind m k.

Definition emit (e : Event) : M unit :=
  fun w => (mkWorld (net w) (heap w) (trace w ++ [e]), Returned tt).

(** [RAMCLOUD_LOG]. *)
Definition RAMCLOUD_LOG (level : LogLevel) (format : string)
    (args : list ServerId) : M unit :=
  emit (EvLog level format args).

(** [exit(status)] ends the process: nothing after it runs. *)
Definition exit {A : Type} (code : Z) : M A := fun w => (w, Exited code).

(** Modelled from the spec: ClientException.h is missing.  A non-success
    status becomes "a typed error carrying the coordinator-reported status
    code". *)
Definition throwException {A : Type} (s : Status) : M A :=
  fun w => (w, Thrown s).

(** [allocHeader<Op>()] puts the header of the operation first in the
    request; its fields are filled by the assignments that follow. *)
Definition allocHeader (op : Opcode) : M unit := emit (EvAllocHeader op).

(** [new(&request, APPEND) char[n]]. *)
Definition appendChars (n : Z) : M unit := emit (EvAppend n).

(** [send()]: hand the finished request to the transport. *)
Definition send (req : Buffer) : M CoordinatorRpcWrapper :=
  fun w =>
    let (n', t) := sendRequest req (net w) in
    (mkWorld n' (heap w) (trace w ++ [EvSend t req]), Returned (mkRpc req t)).

(** [waitInternal(context->dispatch)] followed by [getResponseHeader]: block
    until the transport has the response of this RPC. *)
Definition waitInternal (op : Opcode) (rpc : CoordinatorRpcWrapper)
    : M (Reply op) :=
  fun w =>
    let (n', r) := awaitReply op (ticket rpc) (net w) in
    (mkWorld n' (heap w) (trace w ++ [EvWaitInternal (ticket rpc)]),
     Returned r).

(** [ProtoBuf::parseFromResponse(response, offset, length, message)] writes
    the decoded trailer into the object [message] points to. *)
Definition ProtoBuf_parseFromResponse {op : Opcode} (response : Reply op)
    (offset length : Z) (message : Ptr) : M unit :=
  fun w =>
    match heap w !! message with
    | Some old =>
        (mkWorld (net w)
           (<[message := parseFromResponse response offset length old]>
              (heap w))
           (trace w ++ [EvParseFromResponse offset length message]),
         Returned tt)
    | None => (w, Undefined)
    end.

(** [ProtoBuf::serializeToRequest(&request, message)]. *)
Definition ProtoBuf_serializeToRequest (message : Message)
    : M (list ascii * Z) :=
  _ ← emit EvSerializeToRequest;
  mret (serializeToRequest message).

(** *** enlistServer *)

Definition EnlistServerRpc (replacesId : ServerId)
    (serviceMask : ServiceMask) (localServiceLocator : string)
    (readSpeed : Z) : M CoordinatorRpcWrapper :=
  _ ← allocHeader ENLIST_SERVER;
  let serviceLocatorLength :=
    downCast_uint32 (Z.of_nat (String.length localServiceLocator) + 1) in
  let reqHdr :=
    {| EnlistServer.replacesId := getId replacesId;
       EnlistServer.serviceMask := serialize serviceMask;
       EnlistServer.readSpeed := readSpeed;
       EnlistServer.serviceLocatorLength := serviceLocatorLength |} in
  _ ← appendChars serviceLocatorLength;
  send [Header (ReqEnlistServer reqHdr);
        Chars (strncpy (c_str localServiceLocator)
                 (Z.to_nat serviceLocatorLength))].

Definition EnlistServerRpc_wait (rpc : CoordinatorRpcWrapper) : M ServerId :=
  response ← waitInternal ENLIST_SERVER rpc;
  let respHdr := @header ENLIST_SERVER response in
  let st := status (EnlistServer.common respHdr) in
  _ ← (if negb (st =? STATUS_OK) then throwException st else mret tt);
  mret (mkServerId (EnlistServer.serverId respHdr)).

Definition CoordinatorClient_enlistServer (replacesId : ServerId)
    (serviceMask : ServiceMask) (localServiceLocator : string)
    (readSpeed : Z) : M ServerId :=
  rpc ← EnlistServerRpc replacesId serviceMask localServiceLocator readSpeed;
  EnlistServerRpc_wait rpc.

(** *** getBackupList, getMasterList, getServerList *)

Definition GetServerListRpc (services : ServiceMask)
    : M CoordinatorRpcWrapper :=
  _ ← allocHeader GET_SERVER_LIST;
  let reqHdr := {| GetServerList.serviceMask := serialize services |} in
  send [Header (ReqGetServerList reqHdr)].

Definition GetServerListRpc_wait (rpc : CoordinatorRpcWrapper)
    (serverList : Ptr) : M unit :=
  response ← waitInternal GET_SERVER_LIST rpc;
  let respHdr := @header GET_SERVER_LIST response in
  let st := status (GetServerList.common respHdr) in
  _ ← (if negb (st =? STATUS_OK) then throwException st else mret tt);
  ProtoBuf_parseFromResponse response (sizeof_Response GET_SERVER_LIST)
    (GetServerList.serverListLength respHdr) serverList.

Definition CoordinatorClient_getBackupList (serverList : Ptr) : M unit :=
  rpc ← GetServerListRpc (ServiceMask_of [BACKUP_SERVICE]);
  GetServerListRpc_wait rpc serverList.

Definition CoordinatorClient_getMasterList (serverList : Ptr) : M unit :=
  rpc ← GetServerListRpc (ServiceMask_of [MASTER_SERVICE]);
  GetServerListRpc_wait rpc serverList.

Definition CoordinatorClient_getServerList (serverList : Ptr) : M unit :=
  rpc ← GetServerListRpc (ServiceMask_of [MASTER_SERVICE; BACKUP_SERVICE]);
  GetServerListRpc_wait rpc serverList.

(** *** getTabletMap *)

Definition GetTabletMapRpc : M CoordinatorRpcWrapper :=
  _ ← allocHeader GET_TABLET_MAP;
  send [Header ReqGetTabletMap].

Definition GetTabletMapRpc_wait (rpc : CoordinatorRpcWrapper)
    (tabletMap : Ptr) : M unit :=
  response ← waitInternal GET_TABLET_MAP rpc;
  let respHdr := @header GET_TABLET_MAP response in
  let st := status (GetTabletMap.common respHdr) in
  _ ← (if negb (st =? STATUS_OK) then throwException st else mret tt);
  ProtoBuf_parseFromResponse response (sizeof_Response GET_TABLET_MAP)
    (GetTabletMap.tabletMapLength respHdr) tabletMap.

Definition CoordinatorClient_getTabletMap (tabletMap : Ptr) : M unit :=
  rpc ← GetTabletMapRpc;
  GetTabletMapRpc_wait rpc tabletMap.

(** *** The inherited wait *)

(** Modelled from the spec: the [wait()] that HintServerDownRpc,
    ReassignTabletOwnershipRpc, RecoveryMasterFinishedRpc and
    SetMasterRecoveryInfoRpc inherit is declared in CoordinatorRpcWrapper.h,
    which is missing.  Completion "blocks ... until the coordinator replies,
    then validates the response status": "if the decoded status is not
    success, completion fails with a typed error carrying the
    coordinator-reported status code". *)
Definition simpleWait (op : Opcode) (rpc : CoordinatorRpcWrapper) : M unit :=
  response ← waitInternal op rpc;
  let st := replyStatus response in
  if negb (st =? STATUS_OK) then throwException st else mret tt.

(** *** hintServerDown *)

Definition HintServerDownRpc (serverId : ServerId)
    : M CoordinatorRpcWrapper :=
  _ ← allocHeader HINT_SERVER_DOWN;
  let reqHdr := {| HintServerDown.serverId := getId serverId |} in
  send [Header (ReqHintServerDown reqHdr)].

Definition HintServerDownRpc_wait (rpc : CoordinatorRpcWrapper) : M unit :=
  simpleWait HINT_SERVER_DOWN rpc.

Definition CoordinatorClient_hintServerDown (serverId : ServerId) : M unit :=
  rpc ← HintServerDownRpc serverId;
  HintServerDownRpc_wait rpc.

(** *** reassignTabletOwnership *)

Definition ReassignTabletOwnershipRpc (tableId firstKeyHash lastKeyHash : Z)
    (newOwnerId : ServerId) (ctimeSegmentId ctimeSegmentOffset : Z)
    : M CoordinatorRpcWrapper :=
  _ ← allocHeader REASSIGN_TABLET_OWNERSHIP;
  let reqHdr :=
    {| ReassignTabletOwnership.tableId := tableId;
       ReassignTabletOwnership.firstKeyHash := firstKeyHash;
       ReassignTabletOwnership.lastKeyHash := lastKeyHash;
       ReassignTabletOwnership.newOwnerId := getId newOwnerId;
       ReassignTabletOwnership.ctimeSegmentId := ctimeSegmentId;
       ReassignTabletOwnership.ctimeSegmentOffset := ctimeSegmentOffset |} in
  send [Header (ReqReassignTabletOwnership reqHdr)].

Definition ReassignTabletOwnershipRpc_wait (rpc : CoordinatorRpcWrapper)
    : M unit :=
  simpleWait REASSIGN_TABLET_OWNERSHIP rpc.

Definition CoordinatorClient_reassignTabletOwnership
    (tableId firstKeyHash lastKeyHash : Z) (newOwnerId : ServerId)
    (ctimeSegmentId ctimeSegmentOffset : Z) : M unit :=
  rpc ← ReassignTabletOwnershipRpc tableId firstKeyHash lastKeyHash
          newOwnerId ctimeSegmentId ctimeSegmentOffset;
  ReassignTabletOwnershipRpc_wait rpc.

(** *** recoveryMasterFinished *)

Definition RecoveryMasterFinishedRpc (recoveryId : Z)
    (recoveryMasterId : ServerId) (tablets : Message) (successful : bool)
    : M CoordinatorRpcWrapper :=
  _ ← allocHeader RECOVERY_MASTER_FINISHED;
  '(trailer, tabletsLength) ← ProtoBuf_serializeToRequest tablets;
  let reqHdr :=
    {| RecoveryMasterFinished.recoveryId := recoveryId;
       RecoveryMasterFinished.recoveryMasterId := getId recoveryMasterId;
       RecoveryMasterFinished.tabletsLength := tabletsLength;
       RecoveryMasterFinished.successful := successful |} in
  send [Header (ReqRecoveryMasterFinished reqHdr); Chars trailer].

Definition RecoveryMasterFinishedRpc_wait (rpc : CoordinatorRpcWrapper)
    : M unit :=
  simpleWait RECOVERY_MASTER_FINISHED rpc.

Definition CoordinatorClient_recoveryMasterFinished (recoveryId : Z)
    (recoveryMasterId : ServerId) (tablets : Message) (successful : bool)
    : M unit :=
  rpc ← RecoveryMasterFinishedRpc recoveryId recoveryMasterId tablets
          successful;
  RecoveryMasterFinishedRpc_wait rpc.

(** *** setMasterRecoveryInfo *)

Definition SetMasterRecoveryInfoRpc (serverId : ServerId)
    (recoveryInfo : Message) : M CoordinatorRpcWrapper :=
  _ ← allocHeader SET_MASTER_RECOVERY_INFO;
  '(trailer, infoLength) ← ProtoBuf_serializeToRequest recoveryInfo;
  let reqHdr :=
    {| SetMasterRecoveryInfo.serverId := getId serverId;
       SetMasterRecoveryInfo.infoLength := infoLength |} in
  send [Header (ReqSetMasterRecoveryInfo reqHdr); Chars trailer].

Definition SetMasterRecoveryInfoRpc_wait (rpc : CoordinatorRpcWrapper)
    : M unit :=
  simpleWait SET_MASTER_RECOVERY_INFO rpc.

Definition CoordinatorClient_setMasterRecoveryInfo (serverId : ServerId)
    (recoveryInfo : Message) : M unit :=
  rpc ← SetMasterRecoveryInfoRpc serverId recoveryInfo;
  SetMasterRecoveryInfoRpc_wait rpc.

(** *** verifyMembership *)

Definition VerifyMembershipRpc (serverId : ServerId)
    : M CoordinatorRpcWrapper :=
  _ ← RAMCLOUD_LOG WARNING "verifying cluster membership for %s" [serverId];
  _ ← allocHeader VERIFY_MEMBERSHIP;
  let reqHdr := {| VerifyMembership.serverId := getId serverId |} in
  send [Header (ReqVerifyMembership reqHdr)].

Definition VerifyMembershipRpc_wait (rpc : CoordinatorRpcWrapper)
    (suicideOnFailure : bool) : M unit :=
  response ← waitInternal VERIFY_MEMBERSHIP rpc;
  let respHdr := @header VERIFY_MEMBERSHIP response in
  let st := status (VerifyMembership.common respHdr) in
  if negb (st =? STATUS_OK) then
    _ ← (if (st =? STATUS_CALLER_NOT_IN_CLUSTER) && suicideOnFailure then
           _ ← RAMCLOUD_LOG WARNING
                 "server no longer in cluster; committing suicide" [];
           exit 1
         else mret tt);
    throwException st
  else mret tt.

Definition CoordinatorClient_verifyMembership (serverId : ServerId)
    (suicideOnFailure : bool) : M unit :=
  rpc ← VerifyMembershipRpc serverId;
  VerifyMembershipRpc_wait rpc suicideOnFailure.

End CoordinatorClient.

(** ** MockDriver.cc *)

Module MockDriver.

(** [Driver::Received] (Driver.h is missing): the fields [tryRecvPacket]
    assigns. *)
Record Received := mkReceived {
  addrlen : Z;
  payload : Ptr;
  len : Z;
  driver : Ptr
}.

(** The members the constructors initialize.  [headerToString] is a function
    pointer, null in the default constructor; the three counters are
    [uint32_t]. *)
Record MockDriver := mkMockDriver {
  headerToString : option (list ascii -> string);
  inputReceived : Ptr;
  outputLog : string;
  sendPacketCount : Z;
  tryRecvPacketCount : Z;
  releaseCount : Z
}.

(** The [Received] objects of the test, by address. *)
Abbreviation Memory := (gmap Ptr Received).

Definition increment (count : Z) : Z := (count + 1) mod uint32_max.

(** [MockDriver::MockDriver()]. *)
Definition new : MockDriver :=
  mkMockDriver None NULL EmptyString 0 0 0.

(** [MockDriver::MockDriver(HeaderToString)]. *)
Definition newWithHeader (f : list ascii -> string) : MockDriver :=
  mkMockDriver (Some f) NULL EmptyString 0 0 0.

(** [MockDriver::release]. *)
Definition release (this : MockDriver) : MockDriver :=
  mkMockDriver (headerToString this) (inputReceived this) (outputLog this)
    (sendPacketCount this) (tryRecvPacketCount this)
    (increment (releaseCount this)).

(** [MockDriver::setInput]. *)
Definition setInput (this : MockDriver) (received : Ptr) : MockDriver :=
  mkMockDriver (headerToString this) received (outputLog this)
    (sendPacketCount this) (tryRecvPacketCount this) (releaseCount this).

(** Reading through a pointer: undefined for null and for an address that
    holds no object. *)
Definition load (m : Memory) (p : Ptr) : option Received :=
  if (p =? NULL)%N then None else m !! p.

(** One assignment [p->field = v]. *)
Definition store (p : Ptr) (f : Received -> Received) (m : Memory)
    : option Memory :=
  r ← load m p; Some (<[p := f r]> m).

Definition set_addrlen (v : Z) (r : Received) : Received :=
  mkReceived v (payload r) (len r) (driver r).
Definition set_payload (v : Ptr) (r : Received) : Received :=
  mkReceived (addrlen r) v (len r) (driver r).
Definition set_len (v : Z) (r : Received) : Received :=
  mkReceived (addrlen r) (payload r) v (driver r).
Definition set_driver (v : Ptr) (r : Received) : Received :=
  mkReceived (addrlen r) (payload r) (len r) v.

(** [MockDriver::tryRecvPacket].  [self] is the address of the driver; the
    result is the returned flag, the driver and the memory afterwards, or
    [None] when a pointer that is dereferenced holds no object.  The four
    assignments happen one after the other, each reading the staged input
    again, as they do when both pointers name the same object. *)
Definition tryRecvPacket (self : Ptr) (this : MockDriver) (received : Ptr)
    (m : Memory) : option (bool * MockDriver * Memory) :=
  let this1 :=
    mkMockDriver (headerToString this) (inputReceived this) (outputLog this)
      (sendPacketCount this) (increment (tryRecvPacketCount this))
      (releaseCount this) in
  if (inputReceived this1 =? NULL)%N then Some (false, this1, m)
  else
    i1 ← load m (inputReceived this1);
    m1 ← store received (set_addrlen (addrlen i1)) m;
    i2 ← load m1 (inputReceived this1);
    m2 ← store received (set_payload (payload i2)) m1;
    i3 ← load m2 (inputReceived this1);
    m3 ← store received (set_len (len i3)) m2;
    m4 ← store received (set_driver self) m3;
    Some (true, setInput this1 NULL, m4).

(** *** sendPacket *)

(** [snprintf] with [%u]: the decimal digits of an unsigned number. *)
Definition decimal (n : Z) : string :=
  DecimalString.NilZero.string_of_uint (N.to_uint (Z.to_N n)).

(** The loop that copies the payload, chunk after chunk, into [buf]. *)
Fixpoint copyChunks (chunks : list (list ascii)) (buf : list ascii)
    : list ascii :=
  match chunks with
  | [] => buf
  | chunk :: rest => copyChunks rest (buf ++ chunk)
  end.

(** [MockDriver::sendPacket].  [bufToString] (TestUtil.h is missing) renders
    the bytes it is given; [header] is the [headerLen] bytes behind the
    header pointer, [None] for a null pointer; [payload] is a fresh
    [Buffer::Iterator] as the chunks it will yield, [None] for a null
    pointer.  The address arguments are not used. *)
Definition sendPacket (bufToString : list ascii -> string)
    (this : MockDriver) (header : option (list ascii))
    (payload : option (list (list ascii))) : MockDriver :=
  let count := increment (sendPacketCount this) in
  let log1 :=
    if (String.length (outputLog this) =? 0)%nat then outputLog this
    else (outputLog this ++ " | ")%string in
  let log2 :=
    match headerToString this, header with
    | Some f, Some h => ((log1 ++ f h) ++ " ")%string
    | _, _ => log1
    end in
  let finish (log : string) :=
    mkMockDriver (headerToString this) (inputReceived this) log count
      (tryRecvPacketCount this) (releaseCount this) in
  match payload with
  | None => finish log2
  | Some chunks =>
      let buf := copyChunks chunks [] in
      let length := Z.of_nat (List.length buf) in
      let take := 10 in
      if length <? take then finish (log2 ++ bufToString buf)%string
      else
        finish
          ((log2 ++ bufToString (firstn (Z.to_nat take) buf)) ++
           (" (+" ++ decimal (length - take) ++ " more)"))%string
  end.

(** *** bufToHex *)

(** One hexadecimal digit, lower case, as [%x] prints it. *)
Definition hexDigit (n : Z) : ascii :=
  nth (Z.to_nat n) (list_ascii_of_string "0123456789abcdef") "?"%char.

(** [snprintf(c, sizeof(c), "%02x ", cbuf[i])]. *)
Definition formatByte (b : ascii) : string :=
  let value := Z.of_N (N_of_ascii b) in
  String (hexDigit (value / 16))
    (String (hexDigit (value mod 16)) (String " "%char EmptyString)).

Fixpoint bufToHexLoop (buf : list ascii) (s : string) : string :=
  match buf with
  | [] => s
  | b :: rest => bufToHexLoop rest (s ++ formatByte b)%string
  end.

(** [MockDriver::bufToHex]. *)
Definition bufToHex (buf : list ascii) : string := bufToHexLoop buf "".

(** *** stringToBuffer *)

(** What [stringToBuffer] appends to the buffer: a 4-byte integer or one
    character. *)
Inductive Item :=
| Word (value : Z)
| Byte (c : ascii).

(** A [char] as the integer it is promoted to; [char] is signed on the
    platform the code is built for. *)
Definition charValue (c : ascii) : Z :=
  let n := Z.of_N (N_of_ascii c) in
  if n <? 128 then n else n - 256.

Definition INT_MIN : Z := - 2 ^ 31.
Definition INT_MAX : Z := 2 ^ 31 - 1.

(** The result of an [int] operation; overflow is undefined. *)
Definition checked (x : Z) : option Z :=
  if (INT_MIN <=? x) && (x <=? INT_MAX) then Some x else None.

(** One round of the hexadecimal loop. *)
Definition hexStep (value : Z) (c : ascii) : option Z :=
  v ← checked (16 * value);
  if charValue c <=? charValue "9"%char then
    checked (v + (charValue c - charValue "0"%char))
  else if (charValue "a"%char <=? charValue c) && (charValue c <=? charValue "f"%char)
  then w ← checked (v + 10); checked (w + (charValue c - charValue "a"%char))
  else w ← checked (v + 10); checked (w + (charValue c - charValue "A"%char)).

(** One round of the decimal loop. *)
Definition decStep (value : Z) (c : ascii) : option Z :=
  v ← checked (10 * value);
  checked (v + (charValue c - charValue "0"%char)).

(** The loop of a number: take characters up to and including the next
    space, or to the end; give the value and what is left of the string. *)
Fixpoint scanNumber (step : Z -> ascii -> option Z) (value : Z)
    (s : list ascii) : option (Z * list ascii) :=
  match s with
  | [] => Some (value, [])
  | c :: rest =>
      if Ascii.eqb c " "%char then Some (value, rest)
      else v ← step value c; scanNumber step v rest
  end.

(** The loop of a string: the characters up to the next space or the end,
    then the terminating NUL. *)
Fixpoint scanString (s : list ascii) : list Item * list ascii :=
  match s with
  | [] => ([Byte zero], [])
  | c :: rest =>
      if Ascii.eqb c " "%char then ([Byte zero], rest)
      else let (items, after) := scanString rest in (Byte c :: items, after)
  end.

Inductive Parsed :=
| Done (items : list Item)
| Overflow
| OutOfFuel.

Definition andThen (items : list Item) (rest : Parsed) : Parsed :=
  match rest with
  | Done more => Done (items ++ more)
  | other => other
  end.

Definition isDigit (c : ascii) : bool :=
  (charValue "0"%char <=? charValue c) && (charValue c <=? charValue "9"%char).

(** The outer loop: one token per round, chosen by its first characters.
    [s] is the part of the string from index [i] up to [length].  The test
    for "0x" reads the character at [i+1]; when [i] is the last index that
    is [beyond], the character at index [length]: the terminating NUL,
    unless the 32-bit [length] has wrapped.  If it is an "x", [i += 2]
    moves [i] to [length + 1], where the loops stop, unless that wraps to
    0: [restart] is the part of the string from [(length + 1) mod 2^32] up
    to [length], on which the hexadecimal loop then goes on. *)
Fixpoint tokens (fuel : nat) (beyond : ascii) (restart s : list ascii)
    : Parsed :=
  match s with
  | [] => Done []
  | c :: rest =>
      match fuel with
      | O => OutOfFuel
      | S fuel' =>
          if Ascii.eqb c "0"%char &&
             match rest with
             | c1 :: _ => Ascii.eqb c1 "x"%char
             | [] => Ascii.eqb beyond "x"%char
             end
          then
            match scanNumber hexStep 0
                    match rest with
                    | _ :: digits => digits
                    | [] => restart
                    end with
            | None => Overflow
            | Some (value, after) =>
                andThen [Word value] (tokens fuel' beyond restart after)
            end
          else if Ascii.eqb c "-"%char || isDigit c then
            let sign := if Ascii.eqb c "-"%char then -1 else 1 in
            match scanNumber decStep 0
                    (if Ascii.eqb c "-"%char then rest else s) with
            | None => Overflow
            | Some (value, after) =>
                match checked (value * sign) with
                | None => Overflow
                | Some v =>
                    andThen [Word v] (tokens fuel' beyond restart after)
                end
            end
          else
            let (items, after) := scanString s in
            andThen items (tokens fuel' beyond restart after)
      end
  end.

(** [strlen]: the number of characters before the terminating NUL. *)
Fixpoint strlen (s : list ascii) : nat :=
  match s with
  | [] => O
  | c :: rest => if Ascii.eqb c zero then O else S (strlen rest)
  end.

(** [MockDriver::stringToBuffer].  [s] is the memory behind the pointer.
    [length] is a [uint32_t], so it holds [strlen(s)] modulo 2^32, and only
    that many characters are converted; [i] is a [uint32_t] too, and the
    one step that can take it past [length], [i += 2] at the last index,
    wraps to 0 when [length] is 2^32 - 1.  One round of the outer loop per
    character is enough unless [i] wraps.  The buffer is emptied first, so
    what it held does not matter; the rendering made at the end is thrown
    away. *)
Definition stringToBuffer (s : list ascii) (buffer : list Item) : Parsed :=
  let length := Z.to_nat (Z.of_nat (strlen s) mod uint32_max) in
  let text := firstn length s in
  let restart := if Z.of_nat length + 1 =? uint32_max then text else [] in
  tokens length (nth length s zero) restart text.

(** *** Sequences of calls *)

Inductive Call :=
| CallRelease
| CallSendPacket (header : option (list ascii))
    (payload : option (list (list ascii)))
| CallTryRecvPacket (received : Ptr)
| CallSetInput (received : Ptr).

(** The calls of a test, one after the other, on the driver at address
    [self]; [None] when one of them dereferences a pointer that holds no
    object. *)
Fixpoint runCalls (bufToString : list ascii -> string) (self : Ptr)
    (calls : list Call) (this : MockDriver) (m : Memory)
    : option (MockDriver * Memory) :=
  match calls with
  | [] => Some (this, m)
  | CallRelease :: rest => runCalls bufToString self rest (release this) m
  | CallSendPacket header payload :: rest =>
      runCalls bufToString self rest
        (sendPacket bufToString this header payload) m
  | CallTryRecvPacket received :: rest =>
      '(_, this', m') ← tryRecvPacket self this received m;
      runCalls bufToString self rest this' m'
  | CallSetInput received :: rest =>
      runCalls bufToString self rest (setInput this received) m
  end.

Definition isRelease (c : Call) : bool :=
  match c with CallRelease => true | _ => false end.
Definition isSendPacket (c : Call) : bool :=
  match c with CallSendPacket _ _ => true | _ => false end.
Definition isTryRecvPacket (c : Call) : bool :=
  match c with CallTryRecvPacket _ => true | _ => false end.

(** One conversion after another on the same buffer contents: the items of
    the first, then those of the second; undefined as soon as one is. *)
Definition sequence (first second : Parsed) : Parsed :=
  match first with
  | Done items => andThen items second
  | other => other
  end.

End MockDriver.

(** ** Stand-ins for the collaborators *)

(** A response header of the operation [op] with status [st]; [value] fills
    the one fixed field that the enlist, server-list and tablet-map responses
    have after the status. *)
Definition buildResponse (op : Opcode) (st : Status) (value : Z)
    : ResponseOf op :=
  match op return ResponseOf op with
  | ENLIST_SERVER =>
      {| EnlistServer.common := {| status := st |};
         EnlistServer.serverId := value |}
  | GET_SERVER_LIST =>
      {| GetServerList.common := {| status := st |};
         GetServerList.serverListLength := value |}
  | GET_TABLET_MAP =>
      {| GetTabletMap.common := {| status := st |};
         GetTabletMap.tabletMapLength := value |}
  | HINT_SERVER_DOWN => {| HintServerDown.common := {| status := st |} |}
  | REASSIGN_TABLET_OWNERSHIP =>
      {| ReassignTabletOwnership.common := {| status := st |} |}
  | RECOVERY_MASTER_FINISHED =>
      {| RecoveryMasterFinished.common := {| status := st |} |}
  | SET_MASTER_RECOVERY_INFO =>
      {| SetMasterRecoveryInfo.common := {| status := st |} |}
  | VERIFY_MEMBERSHIP => {| VerifyMembership.common := {| status := st |} |}
  end.

(** Packed sizes of the response headers: a 32-bit status, then the fixed
    field if there is one. *)
Definition packedSize (op : Opcode) : Z :=
  match op with
  | ENLIST_SERVER => 12
  | GET_SERVER_LIST | GET_TABLET_MAP => 8
  | _ => 4
  end.

(** A message that is just its encoded characters. *)
Definition rawParse (op : Opcode) (r : Reply op) (offset length : Z)
    (old : list ascii) : list ascii :=
  firstn (Z.to_nat length) (payload r).

Definition rawSerialize (m : list ascii) : list ascii * Z :=
  (m, Z.of_nat (List.length m)).

(** *** A transport that replays a script

    The transport of a unit test: it records the requests it is given and
    answers each completion with the next scripted response (status, fixed
    field, trailer). *)
Module Scripted.

Record State := mkState {
  outbox : list Buffer;
  script : list (Status * Z * list ascii)
}.

Definition takeRequest (req : Buffer) (s : State) : State * Ticket :=
  (mkState (outbox s ++ [req]) (script s), N.of_nat (List.length (outbox s))).

Definition giveReply (op : Opcode) (t : Ticket) (s : State) : State * Reply op :=
  match script s with
  | [] => (s, mkReply op (buildResponse op 0 0) [])
  | (st, value, trailer) :: rest =>
      (mkState (outbox s) rest, mkReply op (buildResponse op st value) trailer)
  end.

Definition collaborators : Collaborators := {|
  Net := State;
  sendRequest := takeRequest;
  awaitReply := giveReply;
  Message := list ascii;
  STATUS_OK := 0;
  STATUS_CALLER_NOT_IN_CLUSTER := 26;
  downCast_uint32 := fun x => x mod uint32_max;
  sizeof_Response := packedSize;
  parseFromResponse := rawParse;
  serializeToRequest := rawSerialize
|}.

End Scripted.


(** ** Reading a computation *)

Section Observations.

Context `{C : Collaborators}.

(** The outcome of running [m] in the world [w], and the world it leaves. *)
Definition result {A : Type} (m : M A) (w : World) : Outcome A := snd (m w).
Definition after {A : Type} (m : M A) (w : World) : World := fst (m w).

(** The response the transport has for [rpc] in the world [w]. *)
Definition delivered (op : Opcode) (rpc : CoordinatorRpcWrapper) (w : World)
    : Reply op :=
  snd (awaitReply op (ticket rpc) (net w)).

(** The calls [m] makes to collaborators when run in [w]. *)
Definition events {A : Type} (m : M A) (w : World) : list Event :=
  skipn (List.length (trace w)) (trace (after m w)).

(** [st] surfaces as the exception of [outcome] exactly when it is not
    [STATUS_OK]. *)
Definition propagatesStatus {A : Type} (st : Status) (outcome : Outcome A)
    : Prop :=
  (st <> STATUS_OK -> outcome = Thrown st) /\
  (st = STATUS_OK -> forall s : Status, outcome <> Thrown s).

(** [facade] is [issue] followed at once by [complete] on the object that
    [issue] built: issuing returns that object, and from the world issuing
    leaves, the facade and the completion are the same computation (same
    outcome, same world, hence same requests sent and same calls made). *)
Definition issuesThenCompletes {A : Type} (facade : M A)
    (issue : M CoordinatorRpcWrapper)
    (complete : CoordinatorRpcWrapper -> M A) : Prop :=
  forall w : World,
    exists rpc : CoordinatorRpcWrapper,
      issue w = (after issue w, Returned rpc) /\
      facade w = complete rpc (after issue w).

(** The requests handed to the transport among [evs], oldest first. *)
Fixpoint sentRequests (evs : list Event) : list Buffer :=
  match evs with
  | [] => []
  | EvSend _ req :: rest => req :: sentRequests rest
  | _ :: rest => sentRequests rest
  end.

(** The operations and the arguments their constructors take. *)
Inductive Operation :=
| OpEnlistServer (replacesId : ServerId) (serviceMask : ServiceMask)
    (localServiceLocator : string) (readSpeed : Z)
| OpGetServerList (services : ServiceMask)
| OpGetTabletMap
| OpHintServerDown (serverId : ServerId)
| OpReassignTabletOwnership (tableId firstKeyHash lastKeyHash : Z)
    (newOwnerId : ServerId) (ctimeSegmentId ctimeSegmentOffset : Z)
| OpRecoveryMasterFinished (recoveryId : Z) (recoveryMasterId : ServerId)
    (tablets : Message) (successful : bool)
| OpSetMasterRecoveryInfo (serverId : ServerId) (recoveryInfo : Message)
| OpVerifyMembership (serverId : ServerId).

(** Issuing an operation is running the constructor of its RPC class. *)
Definition issue (o : Operation) : M CoordinatorRpcWrapper :=
  match o with
  | OpEnlistServer r m l s => EnlistServerRpc r m l s
  | OpGetServerList m => GetServerListRpc m
  | OpGetTabletMap => GetTabletMapRpc
  | OpHintServerDown id => HintServerDownRpc id
  | OpReassignTabletOwnership t f l o s off =>
      ReassignTabletOwnershipRpc t f l o s off
  | OpRecoveryMasterFinished r id t ok => RecoveryMasterFinishedRpc r id t ok
  | OpSetMasterRecoveryInfo id info => SetMasterRecoveryInfoRpc id info
  | OpVerifyMembership id => VerifyMembershipRpc id
  end.

(** Calls that allocate or fill the request, or hand it to the transport. *)
Definition buildsOrSends (e : Event) : bool :=
  match e with
  | EvAllocHeader _ | EvAppend _ | EvSerializeToRequest | EvSend _ _ => true
  | _ => false
  end.

Definition isLog (e : Event) : bool :=
  match e with
  | EvLog _ _ _ => true
  | _ => false
  end.

(** The one call that blocks until the network has delivered the response:
    the blocking wait of a completion. *)
Definition isWait (e : Event) : bool :=
  match e with
  | EvWaitInternal _ => true
  | _ => false
  end.

Definition isParse (e : Event) : bool :=
  match e with
  | EvParseFromResponse _ _ _ => true
  | _ => false
  end.


(** The characters of [cs] before its first NUL. *)
Fixpoint untilNul (cs : list ascii) : list ascii :=
  match cs with
  | [] => []
  | c :: rest => if Ascii.eqb c zero then [] else c :: untilNul rest
  end.

Definition isSend (e : Event) : bool :=
  match e with
  | EvSend _ _ => true
  | _ => false
  end.

(** The calls to the transport among [evs], in order. *)
Definition exchanges (evs : list Event) : list Event :=
  filter (fun e => isSend e || isWait e) evs.

(** Operations whose request is the header alone. *)
Definition headerOnly (o : Operation) : bool :=
  match o with
  | OpGetServerList _ | OpGetTabletMap | OpHintServerDown _
  | OpReassignTabletOwnership _ _ _ _ _ _ | OpVerifyMembership _ => true
  | _ => false
  end.

End Observations.

(** A unit test's world: the scripted transport with the responses [script]
    to come, and the protocol-buffer objects [objects]. *)
Definition scriptedWorld (script : list (Status * Z * list ascii))
    (objects : gmap Ptr (list ascii)) : World (C := Scripted.collaborators) :=
  mkWorld (C := Scripted.collaborators) (Scripted.mkState [] script) objects
    [].

(** A string of 2^33 - 1 characters, none of them a NUL: "0 a...a 0" of
    2^32 - 1 characters, then an "x" and 2^32 - 1 more characters. *)
Definition longText : list ascii :=
  "0"%char :: " "%char ::
  repeat "a"%char (S (Z.to_nat (uint32_max - 6))) ++ [" "%char; "0"%char].

Definition longString : list ascii :=
  longText ++ "x"%char :: repeat "b"%char (Z.to_nat (uint32_max - 1)).

(** * Properties *)

Section ClientProperties.

Context `{C : Collaborators}.

Ltac run :=
  unfold events, result, after, delivered, mbind, M_bind, bind, mret, M_ret,
    ret, waitInternal, throwException, exit, RAMCLOUD_LOG, allocHeader,
    appendChars, emit, send, replyStatus in *;
  simpl in *.

(** C1.  Completion of verify-membership, with the self-termination flag
    [suicideOnFailure]: when the response status is the "caller not in
    cluster" code and the flag is set the process exits (with code 1); when
    that status arrives and the flag is not set the exception carrying the
    status is thrown; every other non-OK status throws the exception carrying
    it whatever the flag; and an exit only ever happens for the "caller not in
    cluster" status with the flag set. *)
Theorem VerifyMembershipRpc_wait_outcome
    (rpc : CoordinatorRpcWrapper) (suicideOnFailure : bool) (w : World) :
  STATUS_CALLER_NOT_IN_CLUSTER <> STATUS_OK ->
  let st := replyStatus (delivered VERIFY_MEMBERSHIP rpc w) in
  let outcome := result (VerifyMembershipRpc_wait rpc suicideOnFailure) w in
  (st = STATUS_CALLER_NOT_IN_CLUSTER -> suicideOnFailure = true ->
     outcome = Exited 1) /\
  (st = STATUS_CALLER_NOT_IN_CLUSTER -> suicideOnFailure = false ->
     outcome = Thrown st) /\
  (st <> STATUS_OK -> st <> STATUS_CALLER_NOT_IN_CLUSTER ->
     outcome = Thrown st) /\
  (forall code, outcome = Exited code ->
     st = STATUS_CALLER_NOT_IN_CLUSTER /\ suicideOnFailure = true).
Proof.
  intros Hne st outcome. subst st outcome.
  unfold VerifyMembershipRpc_wait. run.
  destruct (awaitReply VERIFY_MEMBERSHIP (ticket rpc) (net w)) as [n' r].
  simpl.
  destruct (Z.eqb_spec (status (VerifyMembership.common (header r))) STATUS_OK)
    as [Hok | Hok]; simpl.
  - repeat split; congruence.
  - destruct (Z.eqb_spec (status (VerifyMembership.common (header r)))
                STATUS_CALLER_NOT_IN_CLUSTER) as [Hc | Hc];
      destruct suicideOnFailure; simpl;
      repeat split; try congruence; try tauto;
      intros code Hx; discriminate Hx.
Qed.

(** C2.  Status propagation.  For the completion of every operation, a
    decoded response status other than STATUS_OK is thrown as the exception
    carrying exactly that status, and STATUS_OK throws nothing; for
    verify-membership this holds outside its special case (the "caller not in
    cluster" status with the self-termination flag set). *)
Theorem wait_propagates_status (rpc : CoordinatorRpcWrapper) (w : World) :
  propagatesStatus (replyStatus (delivered ENLIST_SERVER rpc w))
    (result (EnlistServerRpc_wait rpc) w) /\
  (forall serverList : Ptr,
     propagatesStatus (replyStatus (delivered GET_SERVER_LIST rpc w))
       (result (GetServerListRpc_wait rpc serverList) w)) /\
  (forall tabletMap : Ptr,
     propagatesStatus (replyStatus (delivered GET_TABLET_MAP rpc w))
       (result (GetTabletMapRpc_wait rpc tabletMap) w)) /\
  propagatesStatus (replyStatus (delivered HINT_SERVER_DOWN rpc w))
    (result (HintServerDownRpc_wait rpc) w) /\
  propagatesStatus (replyStatus (delivered REASSIGN_TABLET_OWNERSHIP rpc w))
    (result (ReassignTabletOwnershipRpc_wait rpc) w) /\
  propagatesStatus (replyStatus (delivered RECOVERY_MASTER_FINISHED rpc w))
    (result (RecoveryMasterFinishedRpc_wait rpc) w) /\
  propagatesStatus (replyStatus (delivered SET_MASTER_RECOVERY_INFO rpc w))
    (result (SetMasterRecoveryInfoRpc_wait rpc) w) /\
  (forall suicideOnFailure : bool,
     let st := replyStatus (delivered VERIFY_MEMBERSHIP rpc w) in
     ~ (st = STATUS_CALLER_NOT_IN_CLUSTER /\ suicideOnFailure = true) ->
     propagatesStatus st
       (result (VerifyMembershipRpc_wait rpc suicideOnFailure) w)).
Proof.
  unfold propagatesStatus, EnlistServerRpc_wait, GetServerListRpc_wait,
    GetTabletMapRpc_wait, HintServerDownRpc_wait,
    ReassignTabletOwnershipRpc_wait, RecoveryMasterFinishedRpc_wait,
    SetMasterRecoveryInfoRpc_wait, simpleWait, VerifyMembershipRpc_wait,
    ProtoBuf_parseFromResponse.
  run.
  repeat match goal with
         | |- _ /\ _ => split
         | |- forall _, _ => intro
         end;
    match goal with
    | |- context [awaitReply ?op ?t ?n] =>
        destruct (awaitReply op t n) as [n' r]; simpl in *
    end;
    match goal with
    | |- context [?s =? STATUS_OK] =>
        destruct (Z.eqb_spec s STATUS_OK); simpl in *
    end;
    try congruence;
    try match goal with
        | |- context [heap ?w0 !! ?p] => destruct (heap w0 !! p); simpl
        end;
    try congruence.
  all: match goal with
       | |- context [?s =? STATUS_CALLER_NOT_IN_CLUSTER] =>
           destruct (Z.eqb_spec s STATUS_CALLER_NOT_IN_CLUSTER); simpl
       end;
    try congruence;
    destruct suicideOnFailure; simpl; try congruence; tauto.
Qed.

Lemma events_app {A : Type} (m : M A) (w : World) (evs : list Event) :
  trace (after m w) = trace w ++ evs -> events m w = evs.
Proof.
  unfold events. intros ->. apply drop_app_length.
Qed.

(** C7.  When the response status of a server-list or tablet-map completion
    is not STATUS_OK, the exception carrying the status is thrown, the
    protocol-buffer objects of the caller (the output structure among them)
    are exactly as before, and the only call made is the blocking wait: the
    trailer is never handed to the decoder. *)
Theorem query_wait_failure_leaves_output
    (rpc : CoordinatorRpcWrapper) (out : Ptr) (w : World) :
  (let st := replyStatus (delivered GET_SERVER_LIST rpc w) in
   st <> STATUS_OK ->
   result (GetServerListRpc_wait rpc out) w = Thrown st /\
   heap (after (GetServerListRpc_wait rpc out) w) = heap w /\
   events (GetServerListRpc_wait rpc out) w = [EvWaitInternal (ticket rpc)] /\
   existsb isParse (events (GetServerListRpc_wait rpc out) w) = false) /\
  (let st := replyStatus (delivered GET_TABLET_MAP rpc w) in
   st <> STATUS_OK ->
   result (GetTabletMapRpc_wait rpc out) w = Thrown st /\
   heap (after (GetTabletMapRpc_wait rpc out) w) = heap w /\
   events (GetTabletMapRpc_wait rpc out) w = [EvWaitInternal (ticket rpc)] /\
   existsb isParse (events (GetTabletMapRpc_wait rpc out) w) = false).
Proof.
  split; intros st Hst; subst st;
    match goal with
    | |- context [events ?m w] =>
        assert (Hev : events m w = [EvWaitInternal (ticket rpc)])
    end.
  1, 3: apply events_app.
  all: try rewrite Hev.
  all: unfold GetServerListRpc_wait, GetTabletMapRpc_wait,
         ProtoBuf_parseFromResponse in *; run.
  all: match goal with
       | |- context [awaitReply ?op ?t ?n] =>
           destruct (awaitReply op t n) as [n' r]; simpl in *
       end.
  all: match goal with
       | |- context [?s =? STATUS_OK] =>
           destruct (Z.eqb_spec s STATUS_OK); simpl in *
       end;
    try congruence; auto.
Qed.

(** C3.  Each synchronous facade is the constructor of the operation's RPC
    class followed at once by its completion: the constructor returns the RPC
    object, and from there the facade and the completion give the same
    outcome and leave the same world (so the same requests have been sent and
    the same calls made).  This holds for all the operations of the client
    (the server-list query has three facades). *)
Theorem facade_is_issue_then_complete :
  (forall replacesId serviceMask localServiceLocator readSpeed,
     issuesThenCompletes
       (CoordinatorClient_enlistServer replacesId serviceMask
          localServiceLocator readSpeed)
       (EnlistServerRpc replacesId serviceMask localServiceLocator readSpeed)
       EnlistServerRpc_wait) /\
  (forall serverList,
     issuesThenCompletes (CoordinatorClient_getBackupList serverList)
       (GetServerListRpc (ServiceMask_of [BACKUP_SERVICE]))
       (fun rpc => GetServerListRpc_wait rpc serverList)) /\
  (forall serverList,
     issuesThenCompletes (CoordinatorClient_getMasterList serverList)
       (GetServerListRpc (ServiceMask_of [MASTER_SERVICE]))
       (fun rpc => GetServerListRpc_wait rpc serverList)) /\
  (forall serverList,
     issuesThenCompletes (CoordinatorClient_getServerList serverList)
       (GetServerListRpc (ServiceMask_of [MASTER_SERVICE; BACKUP_SERVICE]))
       (fun rpc => GetServerListRpc_wait rpc serverList)) /\
  (forall tabletMap,
     issuesThenCompletes (CoordinatorClient_getTabletMap tabletMap)
       GetTabletMapRpc
       (fun rpc => GetTabletMapRpc_wait rpc tabletMap)) /\
  (forall serverId,
     issuesThenCompletes (CoordinatorClient_hintServerDown serverId)
       (HintServerDownRpc serverId) HintServerDownRpc_wait) /\
  (forall tableId firstKeyHash lastKeyHash newOwnerId ctimeSegmentId
          ctimeSegmentOffset,
     issuesThenCompletes
       (CoordinatorClient_reassignTabletOwnership tableId firstKeyHash
          lastKeyHash newOwnerId ctimeSegmentId ctimeSegmentOffset)
       (ReassignTabletOwnershipRpc tableId firstKeyHash lastKeyHash
          newOwnerId ctimeSegmentId ctimeSegmentOffset)
       ReassignTabletOwnershipRpc_wait) /\
  (forall recoveryId recoveryMasterId tablets successful,
     issuesThenCompletes
       (CoordinatorClient_recoveryMasterFinished recoveryId recoveryMasterId
          tablets successful)
       (RecoveryMasterFinishedRpc recoveryId recoveryMasterId tablets
          successful)
       RecoveryMasterFinishedRpc_wait) /\
  (forall serverId recoveryInfo,
     issuesThenCompletes
       (CoordinatorClient_setMasterRecoveryInfo serverId recoveryInfo)
       (SetMasterRecoveryInfoRpc serverId recoveryInfo)
       SetMasterRecoveryInfoRpc_wait) /\
  (forall serverId suicideOnFailure,
     issuesThenCompletes
       (CoordinatorClient_verifyMembership serverId suicideOnFailure)
       (VerifyMembershipRpc serverId)
       (fun rpc => VerifyMembershipRpc_wait rpc suicideOnFailure)).
Proof.
  unfold issuesThenCompletes.
  repeat match goal with
         | |- _ /\ _ => split
         | |- forall _, _ => intro
         end.
  all: unfold CoordinatorClient_enlistServer, CoordinatorClient_getBackupList,
         CoordinatorClient_getMasterList, CoordinatorClient_getServerList,
         CoordinatorClient_getTabletMap, CoordinatorClient_hintServerDown,
         CoordinatorClient_reassignTabletOwnership,
         CoordinatorClient_recoveryMasterFinished,
         CoordinatorClient_setMasterRecoveryInfo,
         CoordinatorClient_verifyMembership,
         EnlistServerRpc, GetServerListRpc, GetTabletMapRpc,
         HintServerDownRpc, ReassignTabletOwnershipRpc,
         RecoveryMasterFinishedRpc, SetMasterRecoveryInfoRpc,
         VerifyMembershipRpc, ProtoBuf_serializeToRequest.
  all: run.
  all: try match goal with
           | |- context [serializeToRequest ?m] =>
               destruct (serializeToRequest m) as [cs n]; simpl
           end.
  all: match goal with
       | |- context [sendRequest ?req ?n] =>
           destruct (sendRequest req n) as [n' t] eqn:Hsend; simpl
       end.
  all: eexists; split; reflexivity.
Qed.

Lemma length_list_ascii (s : string) :
  List.length (list_ascii_of_string s) = String.length s.
Proof. induction s as [| c s IH]; simpl; congruence. Qed.

Lemma strncpy_c_str (cs : list ascii) :
  strncpy (cs ++ [zero]) (S (List.length cs)) =
  untilNul cs ++
  repeat zero (S (List.length cs) - List.length (untilNul cs)).
Proof.
  induction cs as [| c cs IH].
  - reflexivity.
  - cbn [app List.length strncpy untilNul].
    destruct (Ascii.eqb c zero).
    + reflexivity.
    + rewrite IH. reflexivity.
Qed.

Lemma untilNul_length (cs : list ascii) :
  (List.length (untilNul cs) <= List.length cs)%nat.
Proof.
  induction cs as [| c cs IH]; simpl; [lia |].
  destruct (Ascii.eqb c zero); simpl; lia.
Qed.

Lemma untilNul_no_nul (cs : list ascii) : ~ In zero cs -> untilNul cs = cs.
Proof.
  induction cs as [| c cs IH]; simpl; intros Hnot; [reflexivity |].
  destruct (Ascii.eqb_spec c zero) as [-> | _].
  - exfalso. apply Hnot. now left.
  - f_equal. apply IH. intros Hin. apply Hnot. now right.
Qed.

Ltac events_calc :=
  unfold events; simpl; rewrite <- ?app_assoc; rewrite ?drop_app_length;
  simpl.

(** C5, as amended.  The enlist constructor, for a locator whose length plus
    one fits in 32 bits (where [downCast] returns its argument), returns the
    RPC object of a request that was handed to the transport and whose fixed
    fields are the 64-bit value of [replacesId], the serialized service
    mask, [readSpeed], and the locator's length plus one; the trailer has
    that many characters: the locator's characters up to its first NUL, then
    NULs.  For a locator without a NUL character that is the locator's
    characters followed by one terminating NUL. *)
Theorem EnlistServerRpc_request (replacesId : ServerId)
    (serviceMask : ServiceMask) (localServiceLocator : string)
    (readSpeed : Z) (w : World) :
  (forall x, 0 <= x < uint32_max -> downCast_uint32 x = x) ->
  Z.of_nat (String.length localServiceLocator) + 1 < uint32_max ->
  let issued :=
    EnlistServerRpc replacesId serviceMask localServiceLocator readSpeed in
  let chars := list_ascii_of_string localServiceLocator in
  let n := Z.of_nat (String.length localServiceLocator) + 1 in
  let trailer :=
    untilNul chars ++
    repeat zero (Z.to_nat n - List.length (untilNul chars)) in
  exists rpc,
    result issued w = Returned rpc /\
    request rpc =
      [Header (ReqEnlistServer
         {| EnlistServer.replacesId := getId replacesId;
            EnlistServer.serviceMask := serialize serviceMask;
            EnlistServer.readSpeed := readSpeed;
            EnlistServer.serviceLocatorLength := n |});
       Chars trailer] /\
    sentRequests (events issued w) = [request rpc] /\
    Z.of_nat (List.length trailer) = n /\
    (~ In zero chars -> trailer = chars ++ [zero]).
Proof.
  intros Hcast Hfit issued chars n trailer.
  assert (Hn : Z.to_nat n = S (List.length chars)).
  { subst n chars. rewrite length_list_ascii. lia. }
  assert (Hlen := untilNul_length chars).
  assert (Htrailer :
    strncpy (c_str localServiceLocator)
      (Z.to_nat
         (downCast_uint32
            (Z.of_nat (String.length localServiceLocator) + 1))) = trailer).
  { rewrite Hcast by (unfold uint32_max in *; lia).
    fold n. rewrite Hn. unfold c_str. fold chars.
    rewrite strncpy_c_str. subst trailer. rewrite Hn. reflexivity. }
  assert (Hcastn :
    downCast_uint32 (Z.of_nat (String.length localServiceLocator) + 1) = n).
  { apply Hcast. unfold uint32_max in *. lia. }
  assert (Hsize : Z.of_nat (List.length trailer) = n).
  { subst trailer. rewrite Hn, length_app, repeat_length. lia. }
  assert (Hplain : ~ In zero chars -> trailer = chars ++ [zero]).
  { intros Hnul. subst trailer. rewrite Hn, (untilNul_no_nul _ Hnul).
    replace (S (List.length chars) - List.length chars)%nat with 1%nat
      by lia.
    reflexivity. }
  clearbody trailer n chars.
  subst issued. unfold EnlistServerRpc. run.
  rewrite Htrailer, Hcastn.
  destruct (sendRequest _ (net w)) as [n' t] eqn:Hsend.
  eexists; split; [reflexivity |]. simpl.
  split; [reflexivity |].
  split; [| split; assumption].
  events_calc. reflexivity.
Qed.

(** C6.  The reassign-tablet-ownership constructor returns the RPC object of
    a request that was handed to the transport and that consists of the
    header alone, whose six fixed fields are the six inputs unchanged (the
    new owner as its 64-bit value). *)
Theorem ReassignTabletOwnershipRpc_request
    (tableId firstKeyHash lastKeyHash : Z) (newOwnerId : ServerId)
    (ctimeSegmentId ctimeSegmentOffset : Z) (w : World) :
  let issued :=
    ReassignTabletOwnershipRpc tableId firstKeyHash lastKeyHash newOwnerId
      ctimeSegmentId ctimeSegmentOffset in
  exists rpc,
    result issued w = Returned rpc /\
    request rpc =
      [Header (ReqReassignTabletOwnership
         {| ReassignTabletOwnership.tableId := tableId;
            ReassignTabletOwnership.firstKeyHash := firstKeyHash;
            ReassignTabletOwnership.lastKeyHash := lastKeyHash;
            ReassignTabletOwnership.newOwnerId := getId newOwnerId;
            ReassignTabletOwnership.ctimeSegmentId := ctimeSegmentId;
            ReassignTabletOwnership.ctimeSegmentOffset :=
              ctimeSegmentOffset |})] /\
    requestTrailer (request rpc) = [] /\
    sentRequests (events issued w) = [request rpc].
Proof.
  intros issued. subst issued. unfold ReassignTabletOwnershipRpc. run.
  destruct (sendRequest _ (net w)) as [n' t] eqn:Hsend.
  eexists; split; [reflexivity |]. simpl.
  repeat split.
  events_calc. reflexivity.
Qed.

Ltac issue_step :=
  match goal with
  | |- context [serializeToRequest ?m] =>
      destruct (serializeToRequest m) as [cs len]; simpl
  | |- context [sendRequest ?req ?n] =>
      destruct (sendRequest req n) as [n' t]; simpl
  end.

Ltac wait_step :=
  match goal with
  | |- context [awaitReply ?op ?t ?n] =>
      destruct (awaitReply op t n) as [n'' r]; simpl
  | |- context [?s =? STATUS_OK] => destruct (s =? STATUS_OK); simpl
  | |- context [?s =? STATUS_CALLER_NOT_IN_CLUSTER] =>
      destruct (s =? STATUS_CALLER_NOT_IN_CLUSTER); simpl
  | |- context [heap ?w0 !! ?p] => destruct (heap w0 !! p); simpl
  end.

(** C8.  The server-list constructor puts the serialized capability filter in
    the serviceMask field of a request that is the header alone;
    getBackupList sends the mask of exactly the backup service,
    getMasterList that of exactly the master service, and getServerList the
    mask that has the services of either; the tablet-map constructor sends
    the bare operation header. *)
Theorem query_requests :
  (forall services w,
     exists rpc,
       result (GetServerListRpc services) w = Returned rpc /\
       request rpc =
         [Header (ReqGetServerList
            {| GetServerList.serviceMask := serialize services |})] /\
       sentRequests (events (GetServerListRpc services) w) = [request rpc]) /\
  (forall serverList w,
     sentRequests (events (CoordinatorClient_getBackupList serverList) w) =
     [[Header (ReqGetServerList
         {| GetServerList.serviceMask :=
              serialize (ServiceMask_of [BACKUP_SERVICE]) |})]]) /\
  (forall serverList w,
     sentRequests (events (CoordinatorClient_getMasterList serverList) w) =
     [[Header (ReqGetServerList
         {| GetServerList.serviceMask :=
              serialize (ServiceMask_of [MASTER_SERVICE]) |})]]) /\
  (forall serverList w,
     sentRequests (events (CoordinatorClient_getServerList serverList) w) =
     [[Header (ReqGetServerList
         {| GetServerList.serviceMask :=
              serialize
                (ServiceMask_of [MASTER_SERVICE; BACKUP_SERVICE]) |})]]) /\
  (forall s, has (ServiceMask_of [BACKUP_SERVICE]) s = true <->
             s = BACKUP_SERVICE) /\
  (forall s, has (ServiceMask_of [MASTER_SERVICE]) s = true <->
             s = MASTER_SERVICE) /\
  (forall s, has (ServiceMask_of [MASTER_SERVICE; BACKUP_SERVICE]) s =
             has (ServiceMask_of [MASTER_SERVICE]) s ||
             has (ServiceMask_of [BACKUP_SERVICE]) s) /\
  (forall w,
     exists rpc,
       result GetTabletMapRpc w = Returned rpc /\
       request rpc = [Header ReqGetTabletMap] /\
       sentRequests (events GetTabletMapRpc w) = [request rpc]).
Proof.
  split; [| split; [| split; [| split; [| split; [| split; [| split]]]]]].
  - intros services w. unfold GetServerListRpc. run. issue_step.
    eexists; repeat split. events_calc. reflexivity.
  - intros p w.
    unfold CoordinatorClient_getBackupList, GetServerListRpc,
      GetServerListRpc_wait, ProtoBuf_parseFromResponse.
    run. issue_step. repeat wait_step; events_calc; reflexivity.
  - intros p w.
    unfold CoordinatorClient_getMasterList, GetServerListRpc,
      GetServerListRpc_wait, ProtoBuf_parseFromResponse.
    run. issue_step. repeat wait_step; events_calc; reflexivity.
  - intros p w.
    unfold CoordinatorClient_getServerList, GetServerListRpc,
      GetServerListRpc_wait, ProtoBuf_parseFromResponse.
    run. issue_step. repeat wait_step; events_calc; reflexivity.
  - intros s; destruct s; vm_compute; split; congruence.
  - intros s; destruct s; vm_compute; split; congruence.
  - intros s; destruct s; reflexivity.
  - intros w. unfold GetTabletMapRpc. run. issue_step.
    eexists; repeat split. events_calc. reflexivity.
Qed.

(** C9, as amended.  Issuing an operation always returns the RPC object; the
    calls it makes are the allocation of the header, the appends that fill
    the trailer and, last, the handing of the request to the transport,
    preceded for verify-membership alone by one logged warning.  It never
    blocks waiting for the network: the one call that does, the blocking
    wait, is never made by a constructor, and is the first call of every
    separate completion. *)
Theorem issue_never_waits (o : Operation) (w : World) :
  (exists rpc,
     result (issue o) w = Returned rpc /\
     forallb (fun e => isLog e || buildsOrSends e) (events (issue o) w)
       = true /\
     (existsb isLog (events (issue o) w) = true ->
        exists serverId, o = OpVerifyMembership serverId) /\
     existsb isWait (events (issue o) w) = false /\
     last (events (issue o) w) = Some (EvSend (ticket rpc) (request rpc)) /\
     sentRequests (events (issue o) w) = [request rpc]) /\
  (forall rpc,
     head (events (EnlistServerRpc_wait rpc) w) =
       Some (EvWaitInternal (ticket rpc)) /\
     (forall out, head (events (GetServerListRpc_wait rpc out) w) =
        Some (EvWaitInternal (ticket rpc))) /\
     (forall out, head (events (GetTabletMapRpc_wait rpc out) w) =
        Some (EvWaitInternal (ticket rpc))) /\
     (forall op, head (events (simpleWait op rpc) w) =
        Some (EvWaitInternal (ticket rpc))) /\
     (forall flag, head (events (VerifyMembershipRpc_wait rpc flag) w) =
        Some (EvWaitInternal (ticket rpc)))).
Proof.
  split.
  - destruct o; unfold issue, EnlistServerRpc, GetServerListRpc,
      GetTabletMapRpc, HintServerDownRpc, ReassignTabletOwnershipRpc,
      RecoveryMasterFinishedRpc, SetMasterRecoveryInfoRpc,
      VerifyMembershipRpc, ProtoBuf_serializeToRequest; run;
      repeat issue_step; eexists; (split; [reflexivity |]);
      events_calc; repeat split; try discriminate; eauto.
  - intros rpc.
    unfold EnlistServerRpc_wait, GetServerListRpc_wait, GetTabletMapRpc_wait,
      simpleWait, VerifyMembershipRpc_wait, ProtoBuf_parseFromResponse.
    run.
    repeat match goal with
           | |- _ /\ _ => split
           | |- forall _, _ => intro
           end;
      repeat wait_step; try destruct flag; simpl; events_calc; reflexivity.
Qed.

End ClientProperties.

(** ** The mock driver *)

Section MockDriverProperties.

Import MockDriver.

Lemma load_valid (m : Memory) (p : Ptr) : p <> NULL -> load m p = m !! p.
Proof.
  intros Hp. unfold load. destruct (N.eqb_spec p NULL); [contradiction | ].
  reflexivity.
Qed.

Lemma store_valid (m : Memory) (p : Ptr) (f : Received -> Received)
    (r : Received) :
  p <> NULL -> m !! p = Some r -> store p f m = Some (<[p := f r]> m).
Proof.
  intros Hp Hr. unfold store. rewrite load_valid, Hr by assumption.
  reflexivity.
Qed.

(** C10.  [tryRecvPacket] hands a staged input over at most once.  With no
    input staged it returns false and leaves every [Received] object as it
    was.  With an input staged by [setInput] it returns true, the output
    object then holds the input's address length, payload and length and
    names this driver as its driver, no other object has changed, and the
    staged input is cleared, so that the next call (without a [setInput] in
    between) returns false and changes no object. *)
Theorem tryRecvPacket_delivers_once (self : Ptr) (this : MockDriver)
    (received : Ptr) (m : Memory) :
  (inputReceived this = NULL ->
     exists this',
       tryRecvPacket self this received m = Some (false, this', m) /\
       inputReceived this' = NULL) /\
  (forall (input : Ptr) (i o : Received),
     input <> NULL -> received <> NULL ->
     m !! input = Some i -> m !! received = Some o ->
     exists this' m',
       tryRecvPacket self (setInput this input) received m =
         Some (true, this', m') /\
       m' !! received =
         Some (mkReceived (addrlen i) (payload i) (len i) self) /\
       (forall p, p <> received -> m' !! p = m !! p) /\
       inputReceived this' = NULL /\
       (forall received2,
          exists this'',
            tryRecvPacket self this' received2 m' = Some (false, this'', m'))).
Proof.
  split.
  - intros Hnone. unfold tryRecvPacket. simpl. rewrite Hnone. simpl.
    eexists; split; reflexivity.
  - intros input i o Hin Hout Hi Ho.
    unfold tryRecvPacket. simpl.
    destruct (N.eqb_spec input NULL) as [| _]; [contradiction |].
    rewrite (load_valid _ Hin), Hi. simpl.
    rewrite (store_valid _ _ Hout Ho). simpl.
    set (m1 := <[received := set_addrlen (addrlen i) o]> m).
    assert (H1 : m1 !! received = Some (set_addrlen (addrlen i) o))
      by apply lookup_insert_eq.
    assert (Hi1 : exists i1, m1 !! input = Some i1 /\ payload i1 = payload i
                             /\ len i1 = len i).
    { destruct (decide (input = received)) as [-> | Hneq].
      - rewrite H1. eexists; split; [reflexivity |].
        rewrite Hi in Ho. injection Ho as ->. split; reflexivity.
      - subst m1. rewrite lookup_insert_ne by congruence.
        eexists; split; [exact Hi |]. split; reflexivity. }
    destruct Hi1 as (i1 & Hi1 & Hp1 & Hl1).
    rewrite (load_valid _ Hin), Hi1. simpl.
    rewrite (store_valid _ _ Hout H1). simpl.
    set (m2 := <[received := _]> m1).
    assert (H2 : m2 !! received =
                 Some (set_payload (payload i1) (set_addrlen (addrlen i) o)))
      by apply lookup_insert_eq.
    assert (Hi2 : exists i2, m2 !! input = Some i2 /\ len i2 = len i).
    { destruct (decide (input = received)) as [-> | Hneq].
      - rewrite H2. eexists; split; [reflexivity |].
        rewrite Hi in Ho. injection Ho as ->. reflexivity.
      - subst m2. rewrite lookup_insert_ne by congruence.
        eexists; split; [exact Hi1 | exact Hl1]. }
    destruct Hi2 as (i2 & Hi2 & Hl2).
    rewrite (load_valid _ Hin), Hi2. simpl.
    rewrite (store_valid _ _ Hout H2). simpl.
    set (m3 := <[received := _]> m2).
    assert (H3 : m3 !! received =
                 Some (set_len (len i2)
                         (set_payload (payload i1)
                            (set_addrlen (addrlen i) o))))
      by apply lookup_insert_eq.
    rewrite (store_valid _ _ Hout H3). simpl.
    eexists; eexists. split; [reflexivity |].
    split.
    { rewrite lookup_insert_eq. unfold set_driver, set_len, set_payload,
        set_addrlen. simpl. rewrite Hp1, Hl2. reflexivity. }
    split.
    { intros p Hp. subst m3 m2 m1.
      rewrite !lookup_insert_ne by congruence. reflexivity. }
    split; [reflexivity |].
    intros received2. eexists. reflexivity.
Qed.

End MockDriverProperties.

(** ** The id an enlistment returns *)

Section EnlistedIds.

Context `{C : Collaborators}.


End EnlistedIds.


(** ** Concrete runs *)

Section Runs.

Local Open Scope char_scope.

(** Verify-membership told "caller not in cluster", with the flag set. *)
Lemma VerifyMembershipRpc_wait_exits :
  result (C := Scripted.collaborators)
    (VerifyMembershipRpc_wait (mkRpc [] 0%N) true)
    (scriptedWorld [(26, 0, [])] ∅) = Exited 1.
Proof.
  destruct (@VerifyMembershipRpc_wait_outcome Scripted.collaborators
              (mkRpc [] 0%N) true (scriptedWorld [(26, 0, [])] ∅))
    as [Hexit _].
  - simpl. lia.
  - apply Hexit; reflexivity.
Defined.



(** A locator of three characters. *)
Lemma EnlistServerRpc_request_run :
  exists rpc,
    result (C := Scripted.collaborators)
      (EnlistServerRpc (mkServerId 5) (ServiceMask_of [BACKUP_SERVICE])
         "tcp" 100)
      (scriptedWorld [] ∅) = Returned rpc /\
    request rpc =
      [Header (ReqEnlistServer
         {| EnlistServer.replacesId := 5;
            EnlistServer.serviceMask := 2;
            EnlistServer.readSpeed := 100;
            EnlistServer.serviceLocatorLength := 4 |});
       Chars ["t"; "c"; "p"; zero]].
Proof.
  destruct (@EnlistServerRpc_request Scripted.collaborators (mkServerId 5)
              (ServiceMask_of [BACKUP_SERVICE]) "tcp" 100
              (scriptedWorld [] ∅))
    as (rpc & Hres & Hreq & _).
  - intros x Hx. simpl. apply Z.mod_small. exact Hx.
  - vm_compute. reflexivity.
  - exists rpc. split; [exact Hres | exact Hreq].
Defined.

(** C5, as stated, fails for a locator with a NUL character inside:
    [strncpy] stops at it, and what follows is NULs, not the rest of the
    locator. *)
Lemma EnlistServerRpc_embedded_nul :
  let locator := String "a" (String zero (String "b" EmptyString)) in
  exists rpc,
    result (C := Scripted.collaborators)
      (EnlistServerRpc (mkServerId 5) (ServiceMask_of [BACKUP_SERVICE])
         locator 100)
      (scriptedWorld [] ∅) = Returned rpc /\
    EnlistServer.serviceLocatorLength
      match requestHeader (request rpc) with
      | Some (ReqEnlistServer h) => h
      | _ => EnlistServer.Build_Request 0 0 0 0
      end = 4 /\
    requestTrailer (request rpc) = [Chars ["a"; zero; zero; zero]] /\
    requestTrailer (request rpc) <>
      [Chars (list_ascii_of_string locator ++ [zero])].
Proof.
  eexists. split; [vm_compute; reflexivity |].
  split; [reflexivity |]. split; [reflexivity |].
  vm_compute. discriminate.
Qed.

(** A server-list completion with status 5. *)
Lemma query_wait_failure_run :
  let w := scriptedWorld [(5, 3, ["x"; "y"; "z"])] {[ 1%N := ["o"] ]} in
  result (C := Scripted.collaborators)
    (GetServerListRpc_wait (mkRpc [] 0%N) 1%N) w = Thrown 5 /\
  heap (after (GetServerListRpc_wait (mkRpc [] 0%N) 1%N) w) = heap w.
Proof.
  intros w.
  destruct (@query_wait_failure_leaves_output Scripted.collaborators
              (mkRpc [] 0%N) 1%N w) as [Hlist _].
  destruct Hlist as (Hthrown & Hheap & _).
  - vm_compute. discriminate.
  - split; [exact Hthrown | exact Hheap].
Defined.

(** C9, as stated, fails for verify-membership: its constructor logs a
    warning before it builds the request. *)
Lemma VerifyMembershipRpc_logs_first :
  events (C := Scripted.collaborators)
    (issue (OpVerifyMembership (mkServerId 7))) (scriptedWorld [] ∅) =
  [EvLog WARNING "verifying cluster membership for %s" [mkServerId 7];
   EvAllocHeader VERIFY_MEMBERSHIP;
   EvSend 0%N
     [Header (ReqVerifyMembership {| VerifyMembership.serverId := 7 |})]] /\
  forallb buildsOrSends
    (events (C := Scripted.collaborators)
       (issue (OpVerifyMembership (mkServerId 7))) (scriptedWorld [] ∅)) =
  false.
Proof. split; vm_compute; reflexivity. Qed.

(** A packet staged at address 1 and received into address 2 by the driver
    at address 9. *)
Lemma tryRecvPacket_delivers_once_run :
  let m : gmap Ptr MockDriver.Received :=
    {[ 1%N := MockDriver.mkReceived 16 40%N 11 0%N;
       2%N := MockDriver.mkReceived 0 0%N 0 0%N ]} in
  exists this' m',
    MockDriver.tryRecvPacket 9%N
      (MockDriver.setInput MockDriver.new 1%N) 2%N m =
      Some (true, this', m') /\
    m' !! 2%N = Some (MockDriver.mkReceived 16 40%N 11 9%N) /\
    MockDriver.inputReceived this' = NULL /\
    exists this'',
      MockDriver.tryRecvPacket 9%N this' 2%N m' = Some (false, this'', m').
Proof.
  intros m.
  destruct (tryRecvPacket_delivers_once 9%N MockDriver.new 2%N m)
    as [_ Hstaged].
  destruct (Hstaged 1%N (MockDriver.mkReceived 16 40%N 11 0%N)
              (MockDriver.mkReceived 0 0%N 0 0%N))
    as (this' & m' & Hrun & Hout & _ & Hclear & Hagain);
    [discriminate | discriminate | reflexivity | reflexivity |].
  exists this', m'.
  split; [exact Hrun |]. split; [exact Hout |].
  split; [exact Hclear |]. apply Hagain.
Defined.

End Runs.

(** ** The mock driver's text helpers *)

Section MockDriverText.

Import MockDriver.

Local Open Scope char_scope.

Lemma scanNumber_shorter (step : Z -> ascii -> option Z) (s : list ascii) :
  forall value value' after,
    scanNumber step value s = Some (value', after) ->
    (List.length after <= List.length s)%nat /\
    (s <> [] -> (List.length after < List.length s)%nat).
Proof.
  induction s as [| c rest IH]; intros value value' after Hscan; simpl in *.
  - injection Hscan as _ <-. split; [simpl; lia | congruence].
  - destruct (Ascii.eqb c " ").
    + injection Hscan as _ <-. split; [lia | intros _; lia].
    + destruct (step value c) as [v |]; simpl in Hscan; [| discriminate].
      destruct (IH _ _ _ Hscan) as [Hle _]. split; [lia | intros _; lia].
Qed.

Lemma scanString_shorter (s : list ascii) :
  (List.length (scanString s).2 <= List.length s)%nat /\
  (s <> [] -> (List.length (scanString s).2 < List.length s)%nat).
Proof.
  induction s as [| c rest IH]; simpl.
  - split; [lia | congruence].
  - destruct (Ascii.eqb c " "); simpl.
    + split; [lia | intros _; lia].
    + destruct (scanString rest) as [items after]. simpl in *.
      destruct IH as [Hle _]. split; [lia | intros _; lia].
Qed.

Lemma andThen_fuel (items : list Item) (p : Parsed) :
  p <> OutOfFuel -> andThen items p <> OutOfFuel.
Proof. destruct p; simpl; congruence. Qed.

Lemma tokens_enough (fuel : nat) :
  forall beyond s,
    (List.length s <= fuel)%nat -> tokens fuel beyond [] s <> OutOfFuel.
Proof.
  induction fuel as [| fuel IH]; intros beyond s Hlen.
  - destruct s; simpl in *; [discriminate | lia].
  - destruct s as [| c rest]; [discriminate |]. simpl in Hlen.
    cbn [tokens].
    destruct (Ascii.eqb c "0" && _).
    + destruct (scanNumber hexStep 0 _) as [[v after] |] eqn:Hscan;
        [| discriminate].
      apply andThen_fuel, IH.
      apply scanNumber_shorter in Hscan as [Hle _].
      destruct rest; simpl in *; lia.
    + destruct (Ascii.eqb c "-" || isDigit c); [| ].
      * destruct (scanNumber decStep 0 _) as [[v after] |] eqn:Hscan;
          [| discriminate].
        destruct (checked _); [| discriminate].
        apply andThen_fuel, IH.
        destruct (Ascii.eqb c "-").
        -- apply scanNumber_shorter in Hscan as [Hle _]. lia.
        -- apply scanNumber_shorter in Hscan as [_ Hlt].
           specialize (Hlt ltac:(discriminate)). simpl in Hlt. lia.
      * destruct (scanString (c :: rest)) as [items after] eqn:Hscan.
        apply andThen_fuel, IH.
        destruct (scanString_shorter (c :: rest)) as [_ Hlt].
        rewrite Hscan in Hlt. specialize (Hlt ltac:(discriminate)).
        simpl in Hlt. lia.
Qed.

Lemma tokens_fuel (f1 : nat) :
  forall f2 beyond s,
    (List.length s <= f1)%nat -> (List.length s <= f2)%nat ->
    tokens f1 beyond [] s = tokens f2 beyond [] s.
Proof.
  induction f1 as [| f1 IH]; intros f2 beyond s H1 H2.
  - destruct s; simpl in *; [destruct f2; reflexivity | lia].
  - destruct s as [| c rest]; [destruct f2; reflexivity |].
    destruct f2 as [| f2]; simpl in H1, H2; [lia |].
    cbn [tokens].
    destruct (Ascii.eqb c "0" && _).
    + destruct (scanNumber hexStep 0 _) as [[v after] |] eqn:Hscan;
        [| reflexivity].
      apply scanNumber_shorter in Hscan as [Hle _].
      rewrite (IH f2 beyond after); [reflexivity | |];
        destruct rest; simpl in *; lia.
    + destruct (Ascii.eqb c "-" || isDigit c).
      * destruct (scanNumber decStep 0 _) as [[v after] |] eqn:Hscan;
          [| reflexivity].
        destruct (checked _); [| reflexivity].
        assert (List.length after <= List.length rest)%nat.
        { destruct (Ascii.eqb c "-").
          - apply scanNumber_shorter in Hscan as [Hle _]. lia.
          - apply scanNumber_shorter in Hscan as [_ Hlt].
            specialize (Hlt ltac:(discriminate)). simpl in Hlt. lia. }
        rewrite (IH f2 beyond after); [reflexivity | lia | lia].
      * destruct (scanString (c :: rest)) as [items after] eqn:Hscan.
        destruct (scanString_shorter (c :: rest)) as [_ Hlt].
        rewrite Hscan in Hlt. specialize (Hlt ltac:(discriminate)).
        simpl in Hlt.
        rewrite (IH f2 beyond after); [reflexivity | lia | lia].
Qed.

Lemma strlen_firstn (s : list ascii) :
  List.length (firstn (strlen s) s) = strlen s.
Proof.
  induction s as [| c rest IH]; simpl; [reflexivity |].
  destruct (Ascii.eqb c zero); simpl; congruence.
Qed.

(** The conversion ends whenever [strlen(s)] is not 2^32 - 1 modulo 2^32:
    every round of the outer loop then takes at least one character, so the
    rounds never outnumber the characters. *)
Theorem stringToBuffer_terminates (s : list ascii) (buffer : list Item) :
  Z.of_nat (strlen s) mod uint32_max <> uint32_max - 1 ->
  stringToBuffer s buffer <> OutOfFuel.
Proof.
  intros Hlength. unfold stringToBuffer.
  rewrite Z2Nat.id by (apply Z.mod_pos_bound; reflexivity).
  destruct (Z.eqb_spec (Z.of_nat (strlen s) mod uint32_max + 1) uint32_max);
    [lia |].
  apply tokens_enough. apply firstn_le_length.
Qed.

Lemma nth_strlen (s : list ascii) : nth (strlen s) s zero = zero.
Proof.
  induction s as [| c rest IH]; [reflexivity |]. cbn [strlen].
  destruct (Ascii.eqb_spec c zero) as [-> | _]; [reflexivity | exact IH].
Qed.

(** While the character beyond the string is not an "x", [i] never passes
    [length + 1]. *)
Lemma tokens_restart (fuel : nat) :
  forall restart s, tokens fuel zero restart s = tokens fuel zero [] s.
Proof.
  induction fuel as [| fuel IH]; intros restart s;
    destruct s as [| c rest]; try reflexivity.
  cbn [tokens].
  destruct rest as [| c1 rest].
  - change (Ascii.eqb zero "x") with false. rewrite andb_false_r.
    destruct (Ascii.eqb c "-" || isDigit c).
    + destruct (scanNumber decStep 0 _) as [[v after] |]; [| reflexivity].
      destruct (checked _); [| reflexivity]. now rewrite IH.
    + destruct (scanString [c]) as [items after]. now rewrite IH.
  - destruct (Ascii.eqb c "0" && _).
    + destruct (scanNumber hexStep 0 _) as [[v after] |]; [| reflexivity].
      now rewrite IH.
    + destruct (Ascii.eqb c "-" || isDigit c).
      * destruct (scanNumber decStep 0 _) as [[v after] |]; [| reflexivity].
        destruct (checked _); [| reflexivity]. now rewrite IH.
      * destruct (scanString (c :: c1 :: rest)) as [items after].
        now rewrite IH.
Qed.

(** On a string shorter than 2^32 characters [length] is [strlen(s)] and
    the character beyond it is the terminating NUL. *)
Lemma stringToBuffer_short (s : list ascii) (buffer : list Item) :
  Z.of_nat (strlen s) < uint32_max ->
  stringToBuffer s buffer = tokens (strlen s) zero [] (firstn (strlen s) s).
Proof.
  intros Hshort. unfold stringToBuffer.
  rewrite Z.mod_small by lia. rewrite Nat2Z.id, nth_strlen.
  apply tokens_restart.
Qed.

Lemma strlen_nul_free (s : list ascii) :
  ~ In zero s -> strlen s = List.length s /\ firstn (strlen s) s = s.
Proof.
  induction s as [| c rest IH]; simpl; intros Hnul; [split; reflexivity |].
  destruct (Ascii.eqb_spec c zero) as [-> | _].
  - exfalso. apply Hnul. now left.
  - destruct IH as [Hlen Hfirst]; [intros Hin; apply Hnul; now right |].
    simpl. split; congruence.
Qed.

Lemma cstring_app (t rest : list ascii) :
  ~ In zero t ->
  strlen (t ++ rest) = (List.length t + strlen rest)%nat /\
  firstn (strlen (t ++ rest)) (t ++ rest) = t ++ firstn (strlen rest) rest.
Proof.
  induction t as [| c t IH]; simpl; intros Hnul; [split; reflexivity |].
  destruct (Ascii.eqb_spec c zero) as [-> | _].
  - exfalso. apply Hnul. now left.
  - destruct IH as [Hlen Hfirst]; [intros Hin; apply Hnul; now right |].
    simpl. split; congruence.
Qed.

Lemma scanNumber_alone (step : Z -> ascii -> option Z) (t : list ascii) :
  ~ In " " t ->
  forall value value' after,
    scanNumber step value t = Some (value', after) -> after = [].
Proof.
  induction t as [| c t IH]; simpl; intros Hsp value value' after Hscan.
  - congruence.
  - destruct (Ascii.eqb_spec c " ") as [-> | _]; [tauto |].
    destruct (step value c) as [v |]; simpl in Hscan; [| discriminate].
    eapply IH; eauto.
Qed.

Lemma scanNumber_before_space (step : Z -> ascii -> option Z)
    (t rest : list ascii) :
  ~ In " " t ->
  forall value,
    scanNumber step value (t ++ " " :: rest) =
    match scanNumber step value t with
    | Some (value', _) => Some (value', rest)
    | None => None
    end.
Proof.
  induction t as [| c t IH]; simpl; intros Hsp value; [reflexivity |].
  destruct (Ascii.eqb_spec c " ") as [-> | _]; [tauto |].
  destruct (step value c) as [v |]; simpl; [| reflexivity].
  apply IH. tauto.
Qed.

Lemma scanString_alone (t : list ascii) :
  ~ In " " t -> scanString t = (map Byte t ++ [Byte zero], []).
Proof.
  induction t as [| c t IH]; simpl; intros Hsp; [reflexivity |].
  destruct (Ascii.eqb_spec c " ") as [-> | _]; [tauto |].
  rewrite IH by tauto. reflexivity.
Qed.

Lemma scanString_before_space (t rest : list ascii) :
  ~ In " " t ->
  scanString (t ++ " " :: rest) = (map Byte t ++ [Byte zero], rest).
Proof.
  induction t as [| c t IH]; simpl; intros Hsp; [reflexivity |].
  destruct (Ascii.eqb_spec c " ") as [-> | _]; [tauto |].
  rewrite IH by tauto. reflexivity.
Qed.

Lemma andThen_nil (items : list Item) : andThen items (Done []) = Done items.
Proof. simpl. rewrite app_nil_r. reflexivity. Qed.

Lemma tokens_token (t rest : list ascii) (fuel : nat) :
  t <> [] -> ~ In " " t ->
  (List.length (t ++ " " :: rest) <= fuel)%nat ->
  tokens fuel zero [] (t ++ " " :: rest) =
  sequence (tokens (List.length t) zero [] t)
    (tokens (List.length rest) zero [] rest).
Proof.
  intros Hne Hsp Hfuel.
  destruct t as [| c t]; [congruence |].
  destruct fuel as [| fuel]; [simpl in Hfuel; lia |].
  rewrite length_app in Hfuel. simpl in Hfuel.
  assert (Hc : ~ In " " t) by (simpl in Hsp; tauto).
  assert (Hrest : forall after,
            after = rest -> tokens fuel zero [] after =
                            tokens (List.length rest) zero [] rest).
  { intros after ->. apply tokens_fuel; lia. }
  cbn [app List.length tokens].
  assert (Hhex :
    match t ++ " " :: rest with
    | c1 :: _ => Ascii.eqb c1 "x"
    | [] => Ascii.eqb zero "x"
    end =
    match t with
    | c1 :: _ => Ascii.eqb c1 "x"
    | [] => Ascii.eqb zero "x"
    end).
  { destruct t; reflexivity. }
  rewrite Hhex.
  destruct (Ascii.eqb c "0" && _) eqn:Hcond.
  - destruct t as [| x t]; [rewrite andb_false_r in Hcond; discriminate |].
    cbn [app tail].
    assert (Ht : ~ In " " t) by (simpl in Hc; tauto).
    rewrite scanNumber_before_space by assumption.
    destruct (scanNumber hexStep 0 t) as [[v after] |] eqn:Hscan;
      [| reflexivity].
    apply scanNumber_alone in Hscan; [subst after | assumption].
    rewrite (Hrest rest eq_refl).
    destruct t; simpl; rewrite ?app_nil_r; reflexivity.
  - destruct (Ascii.eqb c "-" || isDigit c).
    + assert (Hstart :
        (if Ascii.eqb c "-" then t ++ " " :: rest
         else c :: t ++ " " :: rest) =
        (if Ascii.eqb c "-" then t else c :: t) ++ " " :: rest).
      { destruct (Ascii.eqb c "-"); reflexivity. }
      rewrite Hstart.
      assert (Hs : ~ In " " (if Ascii.eqb c "-" then t else c :: t)).
      { destruct (Ascii.eqb c "-"); assumption. }
      rewrite scanNumber_before_space by assumption.
      destruct (scanNumber decStep 0 _) as [[v after] |] eqn:Hscan;
        [| reflexivity].
      apply scanNumber_alone in Hscan; [subst after | assumption].
      destruct (checked _); [| reflexivity].
      rewrite (Hrest rest eq_refl).
      destruct t; simpl; rewrite ?app_nil_r; reflexivity.
    + change (c :: t ++ " " :: rest) with ((c :: t) ++ " " :: rest).
      rewrite scanString_before_space by assumption.
      rewrite scanString_alone by assumption.
      rewrite (Hrest rest eq_refl).
      destruct t; simpl; rewrite ?app_nil_r; reflexivity.
Qed.

Lemma stringToBuffer_token_then (t rest : list ascii) (buffer : list Item) :
  t <> [] -> ~ In " " t -> ~ In zero t ->
  Z.of_nat (List.length t + 1 + strlen rest) < uint32_max ->
  stringToBuffer (t ++ " " :: rest) buffer =
  sequence (stringToBuffer t buffer) (stringToBuffer rest buffer).
Proof.
  intros Hne Hsp Hnul Hshort.
  destruct (@cstring_app t (" " :: rest) Hnul) as [Hlen Hfirst].
  destruct (@strlen_nul_free t Hnul) as [Hlen' Hfirst'].
  change (strlen (" " :: rest)) with (S (strlen rest)) in Hlen, Hfirst.
  cbn [firstn] in Hfirst.
  rewrite !stringToBuffer_short by lia.
  rewrite Hfirst, Hlen, Hfirst', Hlen'.
  rewrite tokens_token;
    [| assumption | assumption
     | rewrite !length_app; simpl; rewrite strlen_firstn; lia].
  rewrite strlen_firstn. reflexivity.
Qed.

Lemma stringToBuffer_space (rest : list ascii) (buffer : list Item) :
  Z.of_nat (1 + strlen rest) < uint32_max ->
  stringToBuffer (" " :: rest) buffer =
  sequence (Done [Byte zero]) (stringToBuffer rest buffer).
Proof.
  intros Hshort.
  assert (Hlen : strlen (" " :: rest) = S (strlen rest)) by reflexivity.
  rewrite !stringToBuffer_short by lia.
  rewrite Hlen. cbn [firstn tokens]. simpl. reflexivity.
Qed.

(** Tokens are converted one by one.  In a string shorter than 2^32
    characters that starts with a token (a non-empty run of characters
    without a space or a NUL) followed by a space, the conversion is the
    conversion of the token followed by the conversion of what comes after
    the space; in particular a space at the very end changes nothing. *)
Theorem stringToBuffer_tokens (t rest : list ascii) (buffer : list Item) :
  t <> [] -> ~ In " " t -> ~ In zero t ->
  Z.of_nat (List.length t + 1 + strlen rest) < uint32_max ->
  stringToBuffer (t ++ " " :: rest) buffer =
    sequence (stringToBuffer t buffer) (stringToBuffer rest buffer) /\
  stringToBuffer (t ++ [" "]) buffer = stringToBuffer t buffer.
Proof.
  intros Hne Hsp Hnul Hshort.
  split; [apply stringToBuffer_token_then; assumption |].
  rewrite stringToBuffer_token_then
    by (try assumption; cbn [strlen]; lia).
  unfold stringToBuffer at 2. simpl.
  destruct (stringToBuffer t buffer); simpl; rewrite ?app_nil_r; reflexivity.
Qed.

(** A space where a token should start is an empty string: it adds a lone
    NUL.  So a string (shorter than 2^32 characters) that starts with a
    space, or has two spaces in a row, carries an empty string there. *)
Theorem stringToBuffer_blank (t rest : list ascii) (buffer : list Item) :
  (Z.of_nat (1 + strlen rest) < uint32_max ->
   stringToBuffer (" " :: rest) buffer =
     sequence (Done [Byte zero]) (stringToBuffer rest buffer)) /\
  (t <> [] -> ~ In " " t -> ~ In zero t ->
   Z.of_nat (List.length t + 2 + strlen rest) < uint32_max ->
   stringToBuffer (t ++ " " :: " " :: rest) buffer =
     sequence (stringToBuffer t buffer)
       (sequence (Done [Byte zero]) (stringToBuffer rest buffer))).
Proof.
  split; [apply stringToBuffer_space |].
  intros Hne Hsp Hnul Hshort.
  rewrite stringToBuffer_token_then;
    [| assumption | assumption | assumption
     | change (strlen (" " :: rest)) with (S (strlen rest)); lia].
  rewrite stringToBuffer_space by lia. reflexivity.
Qed.

(** A word (a token that does not start with a digit or a minus sign)
    shorter than 2^32 characters is copied character by character and
    closed with a NUL. *)
Theorem stringToBuffer_word (c : ascii) (w : list ascii)
    (buffer : list Item) :
  ~ In " " (c :: w) -> ~ In zero (c :: w) ->
  c <> "-" -> isDigit c = false ->
  Z.of_nat (List.length (c :: w)) < uint32_max ->
  stringToBuffer (c :: w) buffer = Done (map Byte (c :: w) ++ [Byte zero]).
Proof.
  intros Hsp Hnul Hminus Hdigit Hshort.
  destruct (@strlen_nul_free (c :: w) Hnul) as [Hlen Hfirst].
  rewrite stringToBuffer_short by (rewrite Hlen; exact Hshort).
  rewrite Hfirst, Hlen. cbn [List.length tokens].
  destruct (Ascii.eqb_spec c "0") as [-> | _]; [discriminate Hdigit |].
  destruct (Ascii.eqb_spec c "-") as [-> | _]; [congruence |].
  rewrite Hdigit. cbn [andb orb].
  rewrite scanString_alone by assumption.
  destruct w; simpl; rewrite ?app_nil_r; reflexivity.
Qed.

(** Once [i] has wrapped to 0 the same two rounds repeat. *)
Lemma tokens_cycle (n : nat) :
  let word := repeat "a" (S n) ++ [" "; "0"] in
  let text := "0" :: " " :: word in
  forall fuel,
    tokens fuel "x" text word = OutOfFuel /\
    tokens fuel "x" text ["0"] = OutOfFuel.
Proof.
  intros word text.
  assert (Hword : scanString word =
                  (map Byte (repeat "a" (S n)) ++ [Byte zero], ["0"])).
  { apply scanString_before_space. intros Hin.
    apply repeat_spec in Hin. discriminate Hin. }
  assert (Hcons : word = "a" :: (repeat "a" n ++ [" "; "0"])) by reflexivity.
  induction fuel as [| fuel [IHword IHzero]].
  - split; [rewrite Hcons |]; reflexivity.
  - split.
    + rewrite Hcons at 1. cbn [tokens]. rewrite <- Hcons.
      change (Ascii.eqb "a" "0") with false.
      change (Ascii.eqb "a" "-") with false.
      change (isDigit "a") with false.
      cbn [andb orb]. rewrite Hword, IHzero. reflexivity.
    + cbn [tokens].
      change (Ascii.eqb "0" "0" && Ascii.eqb "x" "x") with true. cbv iota.
      change (scanNumber hexStep 0 text) with (Some (0, word)).
      cbv iota beta. rewrite IHword. reflexivity.
Qed.

Lemma longText_length :
  List.length longText = Z.to_nat (uint32_max - 1).
Proof.
  unfold longText. cbn [List.length].
  rewrite length_app, repeat_length. cbn [List.length].
  change uint32_max with 4294967296. lia.
Qed.

Lemma longString_strlen :
  strlen longString = Z.to_nat (2 * uint32_max - 1).
Proof.
  assert (Hnul : ~ In zero longString).
  { unfold longString, longText. intros Hin.
    apply in_app_or in Hin as [Hin | Hin].
    - destruct Hin as [H | [H | Hin]]; try discriminate H.
      apply in_app_or in Hin as [Hin | Hin].
      + apply repeat_spec in Hin. discriminate Hin.
      + destruct Hin as [H | [H | []]]; discriminate H.
    - destruct Hin as [H | Hin]; [discriminate H |].
      apply repeat_spec in Hin. discriminate Hin. }
  destruct (strlen_nul_free _ Hnul) as [-> _].
  unfold longString. rewrite length_app, longText_length.
  cbn [List.length]. rewrite repeat_length.
  change uint32_max with 4294967296. lia.
Qed.

(** The conversion does not end on every string.  On [longString] the
    32-bit [length] is 2^32 - 1 and the last character counted is a "0"
    with an "x" behind it: [i += 2] wraps to 0, the hexadecimal loop reads
    the "0" at the start, and the outer loop comes back to the same place,
    appending the same string and integer each time round.  No number of
    rounds is enough. *)
Theorem stringToBuffer_endless (buffer : list Item) (fuel : nat) :
  let length := Z.to_nat (Z.of_nat (strlen longString) mod uint32_max) in
  let text := firstn length longString in
  let restart := if Z.eqb (Z.of_nat length + 1) uint32_max then text else [] in
  Z.of_nat (strlen longString) = 2 * uint32_max - 1 /\
  tokens fuel (nth length longString zero) restart text = OutOfFuel /\
  stringToBuffer longString buffer = OutOfFuel.
Proof.
  assert (Hstrlen : Z.of_nat (strlen longString) = 2 * uint32_max - 1).
  { rewrite longString_strlen. change uint32_max with 4294967296. lia. }
  assert (Hrounds : forall rounds,
            tokens rounds "x" longText longText = OutOfFuel).
  { intros [| rounds]; [reflexivity |].
    unfold longText. cbn [tokens].
    change (Ascii.eqb "0" "0" && Ascii.eqb " " "x") with false.
    change (Ascii.eqb "0" "-" || isDigit "0") with true.
    change (Ascii.eqb "0" "-") with false. cbv iota.
    set (word := repeat "a" (S (Z.to_nat (uint32_max - 6))) ++ [" "; "0"]).
    change (scanNumber decStep 0 ("0" :: " " :: word))
      with (Some (0, word)).
    cbv iota beta. change (checked (0 * 1)) with (Some 0).
    destruct (tokens_cycle (Z.to_nat (uint32_max - 6)) rounds) as [Hcycle _].
    fold word in Hcycle. rewrite Hcycle. reflexivity. }
  assert (Hgeneral : forall rounds,
    let length := Z.to_nat (Z.of_nat (strlen longString) mod uint32_max) in
    let text := firstn length longString in
    let restart := if Z.eqb (Z.of_nat length + 1) uint32_max then text else [] in
    tokens rounds (nth length longString zero) restart text = OutOfFuel).
  { intros rounds. cbv zeta. rewrite Hstrlen.
    change ((2 * uint32_max - 1) mod uint32_max) with (uint32_max - 1).
    rewrite Z2Nat.id by discriminate.
    change (Z.eqb (uint32_max - 1 + 1) uint32_max) with true. cbv iota.
    rewrite <- longText_length. unfold longString.
    rewrite nth_middle, take_app_length. apply Hrounds. }
  cbv zeta. split; [exact Hstrlen |]. split; [apply Hgeneral |].
  unfold stringToBuffer. apply Hgeneral.
Qed.

Lemma checked_in_range (x : Z) :
  INT_MIN <= x <= INT_MAX -> checked x = Some x.
Proof.
  intros [Hlo Hhi]. unfold checked.
  apply Z.leb_le in Hlo, Hhi. rewrite Hlo, Hhi. reflexivity.
Qed.

Lemma decimal_of_uint_cons (u : Decimal.uint) :
  u <> Decimal.Nil ->
  Pos.of_uint u =
  (DecimalPos.Unsigned.hd u *
     10 ^ DecimalPos.Unsigned.usize (DecimalPos.Unsigned.tl u) +
   Pos.of_uint (DecimalPos.Unsigned.tl u))%N.
Proof.
  intros Hne. rewrite !DecimalPos.Unsigned.of_uint_alt.
  destruct u; [congruence | ..];
    unfold Decimal.rev at 1; cbn [Decimal.revapp];
    rewrite DecimalPos.Unsigned.of_lu_revapp;
    cbn [DecimalPos.Unsigned.hd DecimalPos.Unsigned.tl
         DecimalPos.Unsigned.of_lu];
    ring.
Qed.

Lemma scanNumber_decimal (s : string) :
  forall (u : Decimal.uint) (value : Z),
    DecimalString.NilEmpty.uint_of_string s = Some u ->
    0 <= value ->
    value * Z.of_N (10 ^ DecimalPos.Unsigned.usize u) +
      Z.of_N (Pos.of_uint u) <= INT_MAX ->
    scanNumber decStep value (list_ascii_of_string s) =
    Some (value * Z.of_N (10 ^ DecimalPos.Unsigned.usize u) +
            Z.of_N (Pos.of_uint u), []).
Proof.
  induction s as [| c s IH]; intros u value Hu Hv Hmax.
  - injection Hu as <-. simpl. f_equal. f_equal. lia.
  - cbn [DecimalString.NilEmpty.uint_of_string] in Hu.
    destruct (DecimalString.NilEmpty.uint_of_string s) as [u' |] eqn:Hu';
      [| discriminate].
    specialize (IH u').
    assert (Hpow : (1 <= 10 ^ DecimalPos.Unsigned.usize u')%N).
    { pose proof (N.pow_nonzero 10 (DecimalPos.Unsigned.usize u')). lia. }
    apply DecimalString.uint_of_char_spec in Hu.
    cbn [list_ascii_of_string scanNumber].
    repeat destruct Hu as [[-> ->] | Hu]; [.. | destruct Hu as [-> ->]].
    all: rewrite decimal_of_uint_cons in Hmax |- * by discriminate.
    all: cbn [DecimalPos.Unsigned.hd DecimalPos.Unsigned.tl
              DecimalPos.Unsigned.usize] in Hmax |- *.
    all: rewrite N.pow_succ_r' in Hmax |- *.
    all: rewrite ?N2Z.inj_add, ?N2Z.inj_mul in Hmax |- *.
    all: set (P := Z.of_N (10 ^ DecimalPos.Unsigned.usize u')) in *.
    all: set (Q := Z.of_N (Pos.of_uint u')) in *.
    all: assert (HP : 1 <= P) by (subst P; lia).
    all: assert (HQ : 0 <= Q) by (subst Q; lia).
    all: change (Ascii.eqb _ " ") with false; cbv iota.
    all: unfold decStep.
    all: match goal with
         | |- context [charValue ?a - charValue ?b] =>
             let k := eval vm_compute in (charValue a - charValue b) in
             change (charValue a - charValue b) with k
         end.
    all: change (Z.of_N 10) with 10 in *.
    all: repeat match goal with
                | H : context [Z.of_N ?k] |- _ =>
                    is_ground k;
                    let z := eval vm_compute in (Z.of_N k) in
                    change (Z.of_N k) with z in *
                | |- context [Z.of_N ?k] =>
                    is_ground k;
                    let z := eval vm_compute in (Z.of_N k) in
                    change (Z.of_N k) with z in *
                end.
    all: unfold INT_MAX in Hmax.
    all: rewrite (@checked_in_range (10 * value))
           by (unfold INT_MAX, INT_MIN; nia).
    all: cbn [mbind option_bind].
    all: match goal with
         | |- context [checked ?x] =>
             rewrite (@checked_in_range x)
               by (unfold INT_MAX, INT_MIN; nia)
         end.
    all: cbn [mbind option_bind].
    all: rewrite IH; [| reflexivity | lia | fold P Q; unfold INT_MAX; nia].
    all: fold P Q; f_equal; f_equal; ring.
Qed.

Lemma tokens_nil (fuel : nat) (beyond : ascii) (restart : list ascii) :
  tokens fuel beyond restart [] = Done [].
Proof. destruct fuel; reflexivity. Qed.

Lemma decimal_digits (s : string) :
  forall u,
    DecimalString.NilEmpty.uint_of_string s = Some u ->
    Forall (fun c => isDigit c = true) (list_ascii_of_string s).
Proof.
  induction s as [| c s IH]; intros u Hu; [constructor |].
  cbn [DecimalString.NilEmpty.uint_of_string] in Hu.
  destruct (DecimalString.NilEmpty.uint_of_string s) as [u' |] eqn:Hu';
    [| discriminate].
  apply DecimalString.uint_of_char_spec in Hu.
  constructor; [| eapply IH; reflexivity].
  repeat destruct Hu as [[-> _] | Hu]; [.. | destruct Hu as [-> _]];
    reflexivity.
Qed.

Lemma digits_nul_free (cs : list ascii) :
  Forall (fun c => isDigit c = true) cs -> ~ In zero cs.
Proof.
  intros Hall Hin. rewrite Forall_forall in Hall.
  apply list_elem_of_In in Hin. apply Hall in Hin. discriminate Hin.
Qed.

(** A decimal literal (an optional minus sign, then one or more digits)
    shorter than 2^32 characters whose magnitude fits an [int] is converted
    to the one integer it denotes. *)
Theorem stringToBuffer_decimal (s : string) (d : Decimal.int)
    (buffer : list Item) :
  DecimalString.NilZero.int_of_string s = Some d ->
  - INT_MAX <= Z.of_int d <= INT_MAX ->
  Z.of_nat (String.length s) < uint32_max ->
  stringToBuffer (list_ascii_of_string s) buffer = Done [Word (Z.of_int d)].
Proof.
  intros Hd Hrange Hshort.
  destruct s as [| c s]; [discriminate |].
  cbn [DecimalString.NilZero.int_of_string] in Hd.
  rewrite <- length_list_ascii in Hshort.
  destruct (Ascii.eqb_spec c "-") as [-> | Hminus].
  - destruct s as [| c' s']; [discriminate |].
    cbn [DecimalString.NilZero.uint_of_string] in Hd.
    destruct (DecimalString.NilEmpty.uint_of_string (String c' s'))
      as [u |] eqn:Hu; [| discriminate].
    injection Hd as <-.
    pose proof (digits_nul_free (decimal_digits _ Hu)) as Hnul.
    assert (Hnul' : ~ In zero (list_ascii_of_string (String "-" (String c' s')))).
    { cbn [list_ascii_of_string In]. intros [Hz | Hz]; [discriminate |].
      apply Hnul. exact Hz. }
    destruct (strlen_nul_free _ Hnul') as [Hlen Hfirst].
    rewrite stringToBuffer_short by (rewrite Hlen; exact Hshort).
    rewrite Hfirst, Hlen.
    cbn [list_ascii_of_string List.length tokens].
    change (Ascii.eqb "-" "0") with false.
    change (Ascii.eqb "-" "-") with true.
    cbn [andb orb].
    cbn [Z.of_int] in Hrange |- *. unfold Z.of_uint in *.
    pose proof (@scanNumber_decimal (String c' s') u 0 Hu) as Hscan.
    cbn [list_ascii_of_string] in Hscan.
    rewrite Hscan by (unfold INT_MAX in *; lia).
    rewrite Z.mul_0_l, Z.add_0_l.
    rewrite checked_in_range by (unfold INT_MAX, INT_MIN in *; lia).
    rewrite ?tokens_nil. simpl.
    apply (f_equal (fun x => Done [Word x])). lia.
  - cbn [DecimalString.NilZero.uint_of_string] in Hd.
    destruct (DecimalString.NilEmpty.uint_of_string (String c s))
      as [u |] eqn:Hu; [| discriminate].
    injection Hd as <-.
    pose proof (decimal_digits _ Hu) as Hdigits.
    pose proof (digits_nul_free Hdigits) as Hnul.
    destruct (strlen_nul_free _ Hnul) as [Hlen Hfirst].
    rewrite stringToBuffer_short by (rewrite Hlen; exact Hshort).
    rewrite Hfirst, Hlen.
    cbn [list_ascii_of_string] in Hdigits |- *.
    cbn [List.length tokens].
    assert (Hnext :
      match list_ascii_of_string s with
      | c1 :: _ => Ascii.eqb c1 "x"
      | [] => Ascii.eqb zero "x"
      end = false).
    { inversion Hdigits as [| ? ? _ Hrest]; subst.
      destruct (list_ascii_of_string s) as [| c1 cs]; [reflexivity |].
      inversion Hrest as [| ? ? Hc1 _]; subst.
      destruct (Ascii.eqb_spec c1 "x") as [-> | _];
        [discriminate Hc1 | reflexivity]. }
    rewrite Hnext, andb_false_r.
    inversion Hdigits as [| ? ? Hc _]; subst. rewrite Hc, orb_true_r.
    destruct (Ascii.eqb_spec c "-") as [-> | _]; [congruence |].
    cbn [Z.of_int] in Hrange |- *. unfold Z.of_uint in *.
    pose proof (@scanNumber_decimal (String c s) u 0 Hu) as Hscan.
    cbn [list_ascii_of_string] in Hscan.
    rewrite Hscan by (unfold INT_MAX in *; lia).
    rewrite Z.mul_0_l, Z.add_0_l.
    rewrite checked_in_range by (unfold INT_MAX, INT_MIN in *; lia).
    rewrite ?tokens_nil. simpl.
    apply (f_equal (fun x => Done [Word x])). lia.
Qed.

Lemma hexadecimal_of_uint_cons (u : Hexadecimal.uint) :
  u <> Hexadecimal.Nil ->
  Pos.of_hex_uint u =
  (HexadecimalPos.Unsigned.hd u *
     16 ^ HexadecimalPos.Unsigned.usize (HexadecimalPos.Unsigned.tl u) +
   Pos.of_hex_uint (HexadecimalPos.Unsigned.tl u))%N.
Proof.
  intros Hne. rewrite !HexadecimalPos.Unsigned.of_uint_alt.
  destruct u; [congruence | ..];
    unfold Hexadecimal.rev at 1; cbn [Hexadecimal.revapp];
    rewrite HexadecimalPos.Unsigned.of_lu_revapp;
    cbn [HexadecimalPos.Unsigned.hd HexadecimalPos.Unsigned.tl
         HexadecimalPos.Unsigned.of_lu];
    ring.
Qed.

Ltac ground_tests :=
  repeat match goal with
         | |- context [Z.leb ?a ?b] =>
             is_ground a; is_ground b;
             let r := eval vm_compute in (Z.leb a b) in
             change (Z.leb a b) with r
         end;
  cbn [andb]; cbv iota.

Ltac ground_differences :=
  repeat match goal with
         | |- context [charValue ?a - charValue ?b] =>
             let k := eval vm_compute in (charValue a - charValue b) in
             change (charValue a - charValue b) with k
         end.

Ltac ground_numbers :=
  repeat match goal with
         | H : context [Z.of_N ?k] |- _ =>
             is_ground k;
             let z := eval vm_compute in (Z.of_N k) in
             change (Z.of_N k) with z in *
         | |- context [Z.of_N ?k] =>
             is_ground k;
             let z := eval vm_compute in (Z.of_N k) in
             change (Z.of_N k) with z in *
         end.

Lemma scanNumber_hexadecimal (s : string) :
  forall (u : Hexadecimal.uint) (value : Z),
    HexadecimalString.NilEmpty.uint_of_string s = Some u ->
    0 <= value ->
    value * Z.of_N (16 ^ HexadecimalPos.Unsigned.usize u) +
      Z.of_N (Pos.of_hex_uint u) <= INT_MAX ->
    scanNumber hexStep value (list_ascii_of_string s) =
    Some (value * Z.of_N (16 ^ HexadecimalPos.Unsigned.usize u) +
            Z.of_N (Pos.of_hex_uint u), []).
Proof.
  induction s as [| c s IH]; intros u value Hu Hv Hmax.
  - injection Hu as <-. simpl. f_equal. f_equal. lia.
  - cbn [HexadecimalString.NilEmpty.uint_of_string] in Hu.
    destruct (HexadecimalString.NilEmpty.uint_of_string s) as [u' |] eqn:Hu';
      [| discriminate].
    specialize (IH u').
    assert (Hpow : (1 <= 16 ^ HexadecimalPos.Unsigned.usize u')%N).
    { pose proof (N.pow_nonzero 16 (HexadecimalPos.Unsigned.usize u')). lia. }
    apply HexadecimalString.uint_of_char_spec in Hu.
    cbn [list_ascii_of_string scanNumber].
    repeat destruct Hu as [[-> ->] | Hu]; [.. | destruct Hu as [-> ->]].
    all: rewrite hexadecimal_of_uint_cons in Hmax |- * by discriminate.
    all: cbn [HexadecimalPos.Unsigned.hd HexadecimalPos.Unsigned.tl
              HexadecimalPos.Unsigned.usize] in Hmax |- *.
    all: rewrite N.pow_succ_r' in Hmax |- *.
    all: rewrite ?N2Z.inj_add, ?N2Z.inj_mul in Hmax |- *.
    all: set (P := Z.of_N (16 ^ HexadecimalPos.Unsigned.usize u')) in *.
    all: set (Q := Z.of_N (Pos.of_hex_uint u')) in *.
    all: assert (HP : 1 <= P) by (subst P; lia).
    all: assert (HQ : 0 <= Q) by (subst Q; lia).
    all: change (Ascii.eqb _ " ") with false; cbv iota.
    all: unfold hexStep.
    all: ground_differences.
    all: ground_numbers.
    all: unfold INT_MAX in Hmax.
    all: rewrite (@checked_in_range (16 * value))
           by (unfold INT_MAX, INT_MIN; nia).
    all: cbn [mbind option_bind].
    all: ground_tests.
    all: repeat (match goal with
                 | |- context [checked ?x] =>
                     rewrite (@checked_in_range x)
                       by (unfold INT_MAX, INT_MIN; nia)
                 end; cbn [mbind option_bind]).
    all: rewrite IH; [| reflexivity | lia | fold P Q; unfold INT_MAX; nia].
    all: fold P Q; f_equal; f_equal; ring.
Qed.

Lemma hexadecimal_digits (s : string) :
  forall u,
    HexadecimalString.NilEmpty.uint_of_string s = Some u ->
    ~ In zero (list_ascii_of_string s).
Proof.
  induction s as [| c s IH]; intros u Hu; [intros [] |].
  cbn [HexadecimalString.NilEmpty.uint_of_string] in Hu.
  destruct (HexadecimalString.NilEmpty.uint_of_string s) as [u' |] eqn:Hu';
    [| discriminate].
  apply HexadecimalString.uint_of_char_spec in Hu.
  cbn [list_ascii_of_string In]. intros [Hz | Hz].
  - subst c.
    repeat destruct Hu as [[Hc _] | Hu]; [.. | destruct Hu as [Hc _]];
      discriminate Hc.
  - exact (IH u' eq_refl Hz).
Qed.

(** A hexadecimal literal ("0x", then any number of digits and lower-case
    letters a to f) shorter than 2^32 characters whose value fits an [int]
    is converted to the one integer it denotes; "0x" alone is zero. *)
Theorem stringToBuffer_hexadecimal (s : string) (u : Hexadecimal.uint)
    (buffer : list Item) :
  HexadecimalString.NilEmpty.uint_of_string s = Some u ->
  Z.of_N (N.of_hex_uint u) <= INT_MAX ->
  Z.of_nat (String.length s) + 2 < uint32_max ->
  stringToBuffer ("0" :: "x" :: list_ascii_of_string s) buffer =
  Done [Word (Z.of_N (N.of_hex_uint u))].
Proof.
  intros Hu Hrange Hshort.
  assert (Hnul : ~ In zero ("0" :: "x" :: list_ascii_of_string s)).
  { cbn [In]. intros [Hz | [Hz | Hz]]; try discriminate.
    exact (hexadecimal_digits _ Hu Hz). }
  destruct (strlen_nul_free _ Hnul) as [Hlen Hfirst].
  rewrite stringToBuffer_short
    by (rewrite Hlen; cbn [List.length]; rewrite length_list_ascii; lia).
  rewrite Hfirst, Hlen. cbn [List.length tokens].
  change (Ascii.eqb "0" "0") with true.
  change (Ascii.eqb "x" "x") with true.
  cbn [andb]. unfold N.of_hex_uint in *.
  rewrite (@scanNumber_hexadecimal s u 0 Hu) by lia.
  rewrite ?tokens_nil. simpl.
  apply (f_equal (fun x => Done [Word x])). lia.
Qed.

Lemma append_cons (x : ascii) (a b : string) :
  (String x a ++ b)%string = String x (a ++ b)%string.
Proof. reflexivity. Qed.

Lemma append_assoc (a b c : string) :
  ((a ++ b) ++ c)%string = (a ++ (b ++ c))%string.
Proof.
  induction a as [| x a IH]; [reflexivity |].
  rewrite !append_cons, IH. reflexivity.
Qed.

Lemma append_nil_r (a : string) : (a ++ "")%string = a.
Proof.
  induction a as [| x a IH]; [reflexivity |].
  rewrite append_cons, IH. reflexivity.
Qed.

Lemma append_length (a b : string) :
  String.length (a ++ b) = (String.length a + String.length b)%nat.
Proof.
  induction a as [| x a IH]; [reflexivity |].
  rewrite append_cons. cbn [String.length Nat.add]. rewrite IH. reflexivity.
Qed.

Lemma bufToHexLoop_acc (buf : list ascii) :
  forall acc, bufToHexLoop buf acc = (acc ++ bufToHexLoop buf "")%string.
Proof.
  induction buf as [| b buf IH]; intros acc; cbn [bufToHexLoop].
  - rewrite append_nil_r. reflexivity.
  - rewrite (IH (acc ++ formatByte b)%string), (IH ("" ++ formatByte b)%string).
    rewrite append_assoc. reflexivity.
Qed.

(** [bufToHex] renders byte by byte: three characters for every byte, and
    the rendering of two regions put together is the two renderings put
    together. *)
Theorem bufToHex_bytewise (a b : list ascii) :
  bufToHex (a ++ b) = (bufToHex a ++ bufToHex b)%string /\
  String.length (bufToHex a) = (3 * List.length a)%nat.
Proof.
  unfold bufToHex. split.
  - induction a as [| x a IH]; [reflexivity |].
    cbn [app bufToHexLoop].
    rewrite (bufToHexLoop_acc (a ++ b)), (bufToHexLoop_acc a), IH.
    rewrite append_assoc. reflexivity.
  - induction a as [| x a IH]; [reflexivity |].
    cbn [bufToHexLoop]. rewrite bufToHexLoop_acc, append_length, IH.
    simpl. lia.
Qed.

(** What [bufToHex] prints for a byte, [stringToBuffer] reads back as that
    byte when it is given the "0x" prefix. *)
Theorem bufToHex_stringToBuffer (b : ascii) (buffer : list Item) :
  stringToBuffer ("0" :: "x" :: list_ascii_of_string (bufToHex [b])) buffer =
  Done [Word (Z.of_N (N_of_ascii b))].
Proof.
  destruct b as [[|] [|] [|] [|] [|] [|] [|] [|]]; vm_compute; reflexivity.
Qed.

Lemma copyChunks_concat (chunks : list (list ascii)) :
  forall buf, copyChunks chunks buf = buf ++ concat chunks.
Proof.
  induction chunks as [| c chunks IH]; intros buf; simpl.
  - rewrite app_nil_r. reflexivity.
  - rewrite IH, app_assoc. reflexivity.
Qed.

Lemma sendPacket_fields (bufToString : list ascii -> string)
    (this : MockDriver) (header : option (list ascii))
    (payload : option (list (list ascii))) :
  let this' := sendPacket bufToString this header payload in
  sendPacketCount this' = increment (sendPacketCount this) /\
  inputReceived this' = inputReceived this /\
  tryRecvPacketCount this' = tryRecvPacketCount this /\
  releaseCount this' = releaseCount this.
Proof.
  intros this'. subst this'. unfold sendPacket.
  destruct payload; [destruct (Z.ltb _ 10) |]; repeat split; reflexivity.
Qed.


(** Of a payload the log shows its first ten bytes and how many more there
    are: two payloads of the same length that agree on their first ten
    bytes leave the same driver, however each is split into chunks. *)
Theorem sendPacket_payload (bufToString : list ascii -> string)
    (this : MockDriver) (header : option (list ascii))
    (chunks1 chunks2 : list (list ascii)) :
  List.length (concat chunks1) = List.length (concat chunks2) ->
  firstn 10 (concat chunks1) = firstn 10 (concat chunks2) ->
  sendPacket bufToString this header (Some chunks1) =
  sendPacket bufToString this header (Some chunks2).
Proof.
  intros Hlen Hfirst. unfold sendPacket.
  rewrite !copyChunks_concat. cbn [app]. rewrite Hlen.
  destruct (Z.ltb_spec (Z.of_nat (List.length (concat chunks2))) 10)
    as [Hshort | Hlong].
  - rewrite !firstn_all2 in Hfirst by lia. rewrite Hfirst. reflexivity.
  - change (Z.to_nat 10) with 10%nat. rewrite Hfirst. reflexivity.
Qed.

Lemma tryRecvPacket_counters (self : Ptr) (this : MockDriver)
    (received : Ptr) (m : gmap Ptr Received) (flag : bool)
    (this' : MockDriver) (m' : gmap Ptr Received) :
  tryRecvPacket self this received m = Some (flag, this', m') ->
  sendPacketCount this' = sendPacketCount this /\
  tryRecvPacketCount this' = increment (tryRecvPacketCount this) /\
  releaseCount this' = releaseCount this /\
  outputLog this' = outputLog this.
Proof.
  unfold tryRecvPacket. cbn [inputReceived].
  destruct (inputReceived this =? NULL)%N.
  - intros [= _ <- _]. repeat split; reflexivity.
  - intros Hrun.
    repeat match type of Hrun with
           | (?o ≫= _) = Some _ =>
               destruct o; cbn [mbind option_bind] in Hrun;
               [| discriminate Hrun]
           end.
    injection Hrun as _ <- _. repeat split; reflexivity.
Qed.

Lemma increment_range (count : Z) : 0 <= increment count < uint32_max.
Proof. unfold increment, uint32_max. apply Z.mod_pos_bound. lia. Qed.

Lemma increment_tally (count : Z) (n : nat) :
  0 <= count < uint32_max ->
  (increment count + Z.of_nat n) mod uint32_max =
  (count + Z.of_nat (S n)) mod uint32_max.
Proof.
  intros Hc. unfold increment. rewrite Zplus_mod_idemp_l.
  f_equal. lia.
Qed.

Lemma runCalls_tally (bufToString : list ascii -> string) (self : Ptr)
    (calls : list Call) :
  forall (this : MockDriver) (m : gmap Ptr Received)
         (this' : MockDriver) (m' : gmap Ptr Received),
    0 <= sendPacketCount this < uint32_max ->
    0 <= tryRecvPacketCount this < uint32_max ->
    0 <= releaseCount this < uint32_max ->
    runCalls bufToString self calls this m = Some (this', m') ->
    sendPacketCount this' =
      (sendPacketCount this +
       Z.of_nat (List.length (filter isSendPacket calls))) mod uint32_max /\
    tryRecvPacketCount this' =
      (tryRecvPacketCount this +
       Z.of_nat (List.length (filter isTryRecvPacket calls)))
      mod uint32_max /\
    releaseCount this' =
      (releaseCount this +
       Z.of_nat (List.length (filter isRelease calls))) mod uint32_max.
Proof.
  induction calls as [| call calls IH]; intros this m this' m' Hs Ht Hr Hrun.
  - injection Hrun as <- <-. cbn [filter List.length Z.of_nat].
    rewrite !Z.add_0_r, !Z.mod_small by assumption. repeat split.
  - destruct call as [| header payload | received | received];
      cbn [runCalls] in Hrun.
    + apply IH in Hrun; cbn [release sendPacketCount tryRecvPacketCount
                               releaseCount] in *;
        try assumption; try apply increment_range.
      destruct Hrun as (H1 & H2 & H3).
      rewrite increment_tally in H3 by assumption.
      repeat split; assumption.
    + pose proof (@sendPacket_fields bufToString this header payload)
        as (Hcount & _ & Htry & Hrel).
      apply IH in Hrun; rewrite ?Hcount, ?Htry, ?Hrel in *;
        try assumption; try apply increment_range.
      destruct Hrun as (H1 & H2 & H3).
      rewrite increment_tally in H1 by assumption.
      repeat split; assumption.
    + destruct (tryRecvPacket self this received m) as [[[flag this1] m1] |]
        eqn:Hrecv; cbn [mbind option_bind] in Hrun; [| discriminate].
      apply tryRecvPacket_counters in Hrecv as (Hcount & Htry & Hrel & _).
      apply IH in Hrun; rewrite ?Hcount, ?Htry, ?Hrel in *;
        try assumption; try apply increment_range.
      destruct Hrun as (H1 & H2 & H3).
      rewrite increment_tally in H2 by assumption.
      repeat split; assumption.
    + apply IH in Hrun; cbn [setInput sendPacketCount tryRecvPacketCount
                               releaseCount] in *; assumption.
Qed.

(** The three counters count the calls.  After any sequence of calls on a
    driver fresh from either constructor, each counter holds the number of
    calls of its method, modulo 2^32. *)
Theorem counters_count_calls (bufToString : list ascii -> string)
    (self : Ptr) (f : option (list ascii -> string)) (calls : list Call)
    (m : gmap Ptr Received) (this' : MockDriver) (m' : gmap Ptr Received) :
  runCalls bufToString self calls
    match f with
    | None => new
    | Some headerToString => newWithHeader headerToString
    end m = Some (this', m') ->
  sendPacketCount this' =
    Z.of_nat (List.length (filter isSendPacket calls)) mod uint32_max /\
  tryRecvPacketCount this' =
    Z.of_nat (List.length (filter isTryRecvPacket calls)) mod uint32_max /\
  releaseCount this' =
    Z.of_nat (List.length (filter isRelease calls)) mod uint32_max.
Proof.
  intros Hrun.
  apply runCalls_tally in Hrun;
    try (destruct f; cbn; unfold uint32_max; lia).
  destruct f; exact Hrun.
Qed.

Lemma tryRecvPacket_staged_only (self : Ptr) (a b : MockDriver)
    (received : Ptr) (m : gmap Ptr Received) :
  inputReceived a = inputReceived b ->
  option_map (fun r => (r.1.1, r.2)) (tryRecvPacket self a received m) =
  option_map (fun r => (r.1.1, r.2)) (tryRecvPacket self b received m).
Proof.
  intros Heq. unfold tryRecvPacket. cbn [inputReceived]. rewrite Heq.
  destruct (inputReceived b =? NULL)%N; [reflexivity |].
  repeat match goal with
         | |- context [?o ≫= _] =>
             destruct o; cbn [mbind option_bind option_map];
             [| reflexivity]
         end.
  reflexivity.
Qed.

(** A staged packet waits through releases and sends: after any number of
    them no object has changed and the staged input is the same, so the
    next [tryRecvPacket] returns the flag and leaves the memory it would
    have without them. *)
Theorem staged_input_waits (bufToString : list ascii -> string) (self : Ptr)
    (calls : list Call) (this : MockDriver) (m : gmap Ptr Received) :
  Forall (fun call => isRelease call || isSendPacket call = true) calls ->
  exists this',
    runCalls bufToString self calls this m = Some (this', m) /\
    inputReceived this' = inputReceived this /\
    forall received,
      option_map (fun r => (r.1.1, r.2))
        (tryRecvPacket self this' received m) =
      option_map (fun r => (r.1.1, r.2))
        (tryRecvPacket self this received m).
Proof.
  intros Hcalls.
  assert (Hrun : exists this',
            runCalls bufToString self calls this m = Some (this', m) /\
            inputReceived this' = inputReceived this).
  { revert this. induction Hcalls as [| call calls Hcall _ IH]; intros this.
    - exists this. split; reflexivity.
    - destruct call as [| header payload | received | received];
        try discriminate Hcall; cbn [runCalls].
      + destruct (IH (release this)) as (this' & Hrun & Hin).
        exists this'. split; [exact Hrun | exact Hin].
      + destruct (IH (sendPacket bufToString this header payload))
          as (this' & Hrun & Hin).
        exists this'. split; [exact Hrun |]. rewrite Hin.
        apply (@sendPacket_fields bufToString this header payload). }
  destruct Hrun as (this' & Hrun & Hin).
  exists this'. split; [exact Hrun |]. split; [exact Hin |].
  intros received. apply tryRecvPacket_staged_only. exact Hin.
Qed.

End MockDriverText.

(** ** More on the coordinator client *)

Section ClientExchanges.

Context `{C : Collaborators}.

Ltac unfold_client :=
  unfold CoordinatorClient_enlistServer, CoordinatorClient_getBackupList,
    CoordinatorClient_getMasterList, CoordinatorClient_getServerList,
    CoordinatorClient_getTabletMap, CoordinatorClient_hintServerDown,
    CoordinatorClient_reassignTabletOwnership,
    CoordinatorClient_recoveryMasterFinished,
    CoordinatorClient_setMasterRecoveryInfo,
    CoordinatorClient_verifyMembership,
    issue, EnlistServerRpc, GetServerListRpc, GetTabletMapRpc,
    HintServerDownRpc, ReassignTabletOwnershipRpc,
    RecoveryMasterFinishedRpc, SetMasterRecoveryInfoRpc,
    VerifyMembershipRpc, ProtoBuf_serializeToRequest,
    EnlistServerRpc_wait, GetServerListRpc_wait, GetTabletMapRpc_wait,
    HintServerDownRpc_wait, ReassignTabletOwnershipRpc_wait,
    RecoveryMasterFinishedRpc_wait, SetMasterRecoveryInfoRpc_wait,
    simpleWait, VerifyMembershipRpc_wait, ProtoBuf_parseFromResponse in *;
  unfold events, result, after, delivered, mbind, M_bind, bind, mret, M_ret,
    ret, waitInternal, throwException, exit, RAMCLOUD_LOG, allocHeader,
    appendChars, emit, send, replyStatus in *;
  simpl in *.

Ltac step_send :=
  match goal with
  | |- context [serializeToRequest ?m] =>
      destruct (serializeToRequest m) as [cs len]; simpl
  | |- context [sendRequest ?req ?n] =>
      destruct (sendRequest req n) as [n' t]; simpl
  end.

Ltac step_wait :=
  match goal with
  | |- context [awaitReply ?op ?t ?n] =>
      destruct (awaitReply op t n) as [n'' r]; simpl
  | |- context [?s =? STATUS_OK] => destruct (s =? STATUS_OK); simpl
  | |- context [?s =? STATUS_CALLER_NOT_IN_CLUSTER] =>
      destruct (s =? STATUS_CALLER_NOT_IN_CLUSTER); simpl
  | |- context [heap ?w0 !! ?p] => destruct (heap w0 !! p); simpl
  end.

Ltac trace_calc :=
  simpl; rewrite <- ?app_assoc; rewrite ?drop_app_length; simpl.

(** When the response status of a server-list or tablet-map completion is
    STATUS_OK and the output pointer holds an object, completion returns
    and that object becomes what the decoder makes of the response, read
    from right after the response header for the length the header
    announces; the decoder is called once, after the wait. *)
Theorem query_wait_success (rpc : CoordinatorRpcWrapper) (out : Ptr)
    (old : Message) (w : World) :
  heap w !! out = Some old ->
  (let reply := delivered GET_SERVER_LIST rpc w in
   let length := GetServerList.serverListLength (header reply) in
   replyStatus reply = STATUS_OK ->
   result (GetServerListRpc_wait rpc out) w = Returned tt /\
   heap (after (GetServerListRpc_wait rpc out) w) =
     <[out := parseFromResponse reply (sizeof_Response GET_SERVER_LIST)
                length old]> (heap w) /\
   events (GetServerListRpc_wait rpc out) w =
     [EvWaitInternal (ticket rpc);
      EvParseFromResponse (sizeof_Response GET_SERVER_LIST) length out]) /\
  (let reply := delivered GET_TABLET_MAP rpc w in
   let length := GetTabletMap.tabletMapLength (header reply) in
   replyStatus reply = STATUS_OK ->
   result (GetTabletMapRpc_wait rpc out) w = Returned tt /\
   heap (after (GetTabletMapRpc_wait rpc out) w) =
     <[out := parseFromResponse reply (sizeof_Response GET_TABLET_MAP)
                length old]> (heap w) /\
   events (GetTabletMapRpc_wait rpc out) w =
     [EvWaitInternal (ticket rpc);
      EvParseFromResponse (sizeof_Response GET_TABLET_MAP) length out]).
Proof.
  intros Hold. split; intros reply length Hok; subst reply length.
  all: unfold_client.
  all: match goal with
       | |- context [awaitReply ?op ?t ?n] =>
           destruct (awaitReply op t n) as [n'' r]; simpl in *
       end.
  all: rewrite Hok, Z.eqb_refl; simpl; rewrite Hold; simpl.
  all: repeat split; trace_calc; reflexivity.
Qed.

Ltac facade_exchange :=
  intros; unfold_client; repeat step_send; repeat step_wait;
  unfold exchanges; trace_calc; eexists; eexists; reflexivity.

(** One call, one exchange.  Whatever the response and the outcome, each
    facade hands exactly one request to the transport and then waits
    exactly once, for that request: nothing is sent again and nothing is
    waited for twice. *)
Theorem facade_single_exchange (w : World) :
  (forall replacesId serviceMask localServiceLocator readSpeed,
     exists t req,
       exchanges (events (CoordinatorClient_enlistServer replacesId
                            serviceMask localServiceLocator readSpeed) w) =
       [EvSend t req; EvWaitInternal t]) /\
  (forall serverList,
     exists t req,
       exchanges (events (CoordinatorClient_getBackupList serverList) w) =
       [EvSend t req; EvWaitInternal t]) /\
  (forall serverList,
     exists t req,
       exchanges (events (CoordinatorClient_getMasterList serverList) w) =
       [EvSend t req; EvWaitInternal t]) /\
  (forall serverList,
     exists t req,
       exchanges (events (CoordinatorClient_getServerList serverList) w) =
       [EvSend t req; EvWaitInternal t]) /\
  (forall tabletMap,
     exists t req,
       exchanges (events (CoordinatorClient_getTabletMap tabletMap) w) =
       [EvSend t req; EvWaitInternal t]) /\
  (forall serverId,
     exists t req,
       exchanges (events (CoordinatorClient_hintServerDown serverId) w) =
       [EvSend t req; EvWaitInternal t]) /\
  (forall tableId firstKeyHash lastKeyHash newOwnerId ctimeSegmentId
          ctimeSegmentOffset,
     exists t req,
       exchanges (events (CoordinatorClient_reassignTabletOwnership tableId
                            firstKeyHash lastKeyHash newOwnerId
                            ctimeSegmentId ctimeSegmentOffset) w) =
       [EvSend t req; EvWaitInternal t]) /\
  (forall recoveryId recoveryMasterId tablets successful,
     exists t req,
       exchanges (events (CoordinatorClient_recoveryMasterFinished
                            recoveryId recoveryMasterId tablets successful)
                    w) =
       [EvSend t req; EvWaitInternal t]) /\
  (forall serverId recoveryInfo,
     exists t req,
       exchanges (events (CoordinatorClient_setMasterRecoveryInfo serverId
                            recoveryInfo) w) =
       [EvSend t req; EvWaitInternal t]) /\
  (forall serverId suicideOnFailure,
     exists t req,
       exchanges (events (CoordinatorClient_verifyMembership serverId
                            suicideOnFailure) w) =
       [EvSend t req; EvWaitInternal t]).
Proof.
  repeat match goal with |- _ /\ _ => split end.
  all: try facade_exchange.
  all: intros; unfold_client; repeat step_send; repeat step_wait;
       try destruct suicideOnFailure; simpl;
       unfold exchanges; trace_calc; eexists; eexists; reflexivity.
Qed.

(** The client writes to no object of the caller, except that a query
    completion may write to its output: issuing an operation and completing
    an enlist, an inherited wait or a verify-membership leave every
    protocol-buffer object as it was, whatever the outcome, and a
    server-list or tablet-map completion leaves every object other than its
    output as it was. *)
Theorem client_writes_output_only (rpc : CoordinatorRpcWrapper) (w : World) :
  (forall o, heap (after (issue o) w) = heap w) /\
  heap (after (EnlistServerRpc_wait rpc) w) = heap w /\
  (forall op, heap (after (simpleWait op rpc) w) = heap w) /\
  (forall flag, heap (after (VerifyMembershipRpc_wait rpc flag) w) = heap w) /\
  (forall out p, p <> out ->
     heap (after (GetServerListRpc_wait rpc out) w) !! p = heap w !! p) /\
  (forall out p, p <> out ->
     heap (after (GetTabletMapRpc_wait rpc out) w) !! p = heap w !! p).
Proof.
  repeat match goal with |- _ /\ _ => split end.
  - intros o. destruct o; unfold_client; repeat step_send; reflexivity.
  - unfold_client. repeat step_wait; reflexivity.
  - intros op. unfold_client. repeat step_wait; reflexivity.
  - intros flag. unfold_client. repeat step_wait;
      try destruct flag; reflexivity.
  - intros out p Hp. unfold_client.
    destruct (awaitReply GET_SERVER_LIST (ticket rpc) (net w)) as [n'' r].
    simpl. destruct (_ =? STATUS_OK); simpl; [| reflexivity].
    destruct (heap w !! out); simpl; [| reflexivity].
    rewrite lookup_insert_ne by congruence. reflexivity.
  - intros out p Hp. unfold_client.
    destruct (awaitReply GET_TABLET_MAP (ticket rpc) (net w)) as [n'' r].
    simpl. destruct (_ =? STATUS_OK); simpl; [| reflexivity].
    destruct (heap w !! out); simpl; [| reflexivity].
    rewrite lookup_insert_ne by congruence. reflexivity.
Qed.

Lemma strncpy_length (src : list ascii) (n : nat) :
  List.length (strncpy src n) = n.
Proof.
  revert src. induction n as [| n IH]; intros src;
    [destruct src; reflexivity |].
  destruct src as [| c rest]; cbn [strncpy].
  - apply repeat_length.
  - destruct (Ascii.eqb c zero); [apply repeat_length |].
    cbn [List.length]. rewrite IH. reflexivity.
Qed.

(** The length an enlist request announces is the length of its trailer,
    for every locator: also for one with a NUL inside, and whatever
    [downCast] made of the length, as long as that is not negative. *)
Theorem EnlistServerRpc_trailer_length (replacesId : ServerId)
    (serviceMask : ServiceMask) (localServiceLocator : string)
    (readSpeed : Z) (w : World) :
  0 <= downCast_uint32 (Z.of_nat (String.length localServiceLocator) + 1) ->
  exists rpc h trailer,
    result (EnlistServerRpc replacesId serviceMask localServiceLocator
              readSpeed) w = Returned rpc /\
    request rpc = [Header (ReqEnlistServer h); Chars trailer] /\
    Z.of_nat (List.length trailer) = EnlistServer.serviceLocatorLength h.
Proof.
  intros Hcast. unfold_client. step_send.
  eexists. eexists. eexists.
  split; [reflexivity |]. split; [reflexivity |].
  rewrite strncpy_length. cbn [EnlistServer.serviceLocatorLength]. lia.
Qed.

(** Logging in verify-membership's completion announces the exit and
    nothing else: the completion logs (the suicide warning) exactly when it
    ends the process. *)
Theorem VerifyMembershipRpc_wait_logs_exit (rpc : CoordinatorRpcWrapper)
    (suicideOnFailure : bool) (w : World) :
  let evs := events (VerifyMembershipRpc_wait rpc suicideOnFailure) w in
  (result (VerifyMembershipRpc_wait rpc suicideOnFailure) w = Exited 1 ->
   evs = [EvWaitInternal (ticket rpc);
          EvLog WARNING "server no longer in cluster; committing suicide"
            []]) /\
  (result (VerifyMembershipRpc_wait rpc suicideOnFailure) w <> Exited 1 ->
   evs = [EvWaitInternal (ticket rpc)]).
Proof.
  intros evs. subst evs. unfold_client.
  repeat step_wait; try destruct suicideOnFailure; simpl;
    split; intros Hout; try discriminate Hout; try congruence;
    trace_calc; reflexivity.
Qed.

(** A request that is the header alone tells which call made it: two
    such operations whose constructors build the same request are the same
    operation with the same arguments. *)
Theorem header_request_determines_call (o1 o2 : Operation) (w1 w2 : World)
    (rpc1 rpc2 : CoordinatorRpcWrapper) :
  headerOnly o1 = true -> headerOnly o2 = true ->
  result (issue o1) w1 = Returned rpc1 ->
  result (issue o2) w2 = Returned rpc2 ->
  request rpc1 = request rpc2 ->
  o1 = o2.
Proof.
  intros H1 H2 Hr1 Hr2 Hreq.
  destruct o1; try discriminate H1; destruct o2; try discriminate H2.
  all: unfold_client.
  all: repeat match goal with
              | H : context [sendRequest ?req ?n] |- _ =>
                  destruct (sendRequest req n) as [? ?]; simpl in H
              end.
  all: injection Hr1 as <-; injection Hr2 as <-; simpl in Hreq.
  all: try discriminate Hreq; try reflexivity.
  all: injection Hreq; intros; subst.
  all: repeat match goal with
              | x : ServerId |- _ => destruct x
              | x : ServiceMask |- _ => destruct x
              end; simpl in *; subst; reflexivity.
Qed.

(** An enlist request tells its arguments too, for locators that are C
    strings (no NUL inside) whose length plus one fits in 32 bits. *)
Theorem enlist_request_determines_call
    (r1 r2 : ServerId) (m1 m2 : ServiceMask) (l1 l2 : string) (s1 s2 : Z)
    (w1 w2 : World) (rpc1 rpc2 : CoordinatorRpcWrapper) :
  (forall x, 0 <= x < uint32_max -> downCast_uint32 x = x) ->
  Z.of_nat (String.length l1) + 1 < uint32_max ->
  Z.of_nat (String.length l2) + 1 < uint32_max ->
  ~ In zero (list_ascii_of_string l1) ->
  ~ In zero (list_ascii_of_string l2) ->
  result (EnlistServerRpc r1 m1 l1 s1) w1 = Returned rpc1 ->
  result (EnlistServerRpc r2 m2 l2 s2) w2 = Returned rpc2 ->
  request rpc1 = request rpc2 ->
  r1 = r2 /\ m1 = m2 /\ l1 = l2 /\ s1 = s2.
Proof.
  intros Hcast Hfit1 Hfit2 Hnul1 Hnul2 Hr1 Hr2 Hreq.
  assert (Htrailer : forall l,
    Z.of_nat (String.length l) + 1 < uint32_max ->
    ~ In zero (list_ascii_of_string l) ->
    strncpy (c_str l)
      (Z.to_nat (downCast_uint32 (Z.of_nat (String.length l) + 1))) =
    list_ascii_of_string l ++ [zero]).
  { intros l Hfit Hnul.
    rewrite Hcast by (unfold uint32_max in *; lia).
    replace (Z.to_nat (Z.of_nat (String.length l) + 1))
      with (S (List.length (list_ascii_of_string l)))
      by (rewrite length_list_ascii; lia).
    unfold c_str. rewrite strncpy_c_str, (untilNul_no_nul _ Hnul).
    replace (S (List.length (list_ascii_of_string l)) -
             List.length (list_ascii_of_string l))%nat with 1%nat by lia.
    reflexivity. }
  unfold_client.
  repeat match goal with
         | H : context [sendRequest ?req ?n] |- _ =>
             destruct (sendRequest req n) as [? ?]; simpl in H
         end.
  injection Hr1 as <-; injection Hr2 as <-; simpl in Hreq.
  rewrite !Htrailer in Hreq by assumption.
  injection Hreq as Hid Hmask Hspeed _ Hchars.
  apply app_inj_tail in Hchars as [Hchars _].
  apply (f_equal string_of_list_ascii) in Hchars.
  rewrite !string_of_list_ascii_of_string in Hchars.
  destruct r1, r2, m1, m2; simpl in *; subst. repeat split.
Qed.

End ClientExchanges.

(** ** More concrete runs *)

Section MoreRuns.

Local Open Scope char_scope.

(** A server-list completion with STATUS_OK and a three-byte trailer. *)
Lemma query_wait_success_run :
  let w := scriptedWorld [(0, 3, ["x"; "y"; "z"])] {[ 1%N := ["o"] ]} in
  result (C := Scripted.collaborators)
    (GetServerListRpc_wait (mkRpc [] 0%N) 1%N) w = Returned tt /\
  heap (after (GetServerListRpc_wait (mkRpc [] 0%N) 1%N) w) =
    {[ 1%N := ["x"; "y"; "z"] ]}.
Proof.
  intros w.
  destruct (@query_wait_success Scripted.collaborators (mkRpc [] 0%N) 1%N
              ["o"] w eq_refl) as [Hlist _].
  destruct (Hlist eq_refl) as (Hres & Hheap & _).
  split; [exact Hres |]. rewrite Hheap. apply insert_singleton_eq.
Defined.

(** An enlist request for a locator with a NUL inside. *)
Lemma EnlistServerRpc_trailer_length_run :
  exists rpc h trailer,
    result (C := Scripted.collaborators)
      (EnlistServerRpc (mkServerId 5) (ServiceMask_of [BACKUP_SERVICE])
         (String "a" (String zero (String "b" EmptyString))) 100)
      (scriptedWorld [] ∅) = Returned rpc /\
    request rpc = [Header (ReqEnlistServer h); Chars trailer] /\
    Z.of_nat (List.length trailer) = EnlistServer.serviceLocatorLength h.
Proof.
  apply (@EnlistServerRpc_trailer_length Scripted.collaborators).
  vm_compute. discriminate.
Defined.

(** Two hints about the same server. *)
Lemma header_request_determines_call_run :
  OpHintServerDown (C := Scripted.collaborators) (mkServerId 3) =
  OpHintServerDown (mkServerId 3).
Proof.
  apply (@header_request_determines_call Scripted.collaborators
           (OpHintServerDown (mkServerId 3)) (OpHintServerDown (mkServerId 3))
           (scriptedWorld [] ∅) (scriptedWorld [] ∅)
           (mkRpc [Header (ReqHintServerDown
                             {| HintServerDown.serverId := 3 |})] 0%N)
           (mkRpc [Header (ReqHintServerDown
                             {| HintServerDown.serverId := 3 |})] 0%N));
    reflexivity.
Defined.

(** Two enlistments with the same request. *)
Lemma enlist_request_determines_call_run :
  mkServerId 5 = mkServerId 5 /\
  ServiceMask_of [BACKUP_SERVICE] = ServiceMask_of [BACKUP_SERVICE] /\
  "tcp"%string = "tcp"%string /\ 100 = 100.
Proof.
  apply (@enlist_request_determines_call Scripted.collaborators
           (mkServerId 5) (mkServerId 5) (ServiceMask_of [BACKUP_SERVICE])
           (ServiceMask_of [BACKUP_SERVICE]) "tcp" "tcp" 100 100
           (scriptedWorld [] ∅) (scriptedWorld [] ∅)
           (mkRpc [Header (ReqEnlistServer
                     {| EnlistServer.replacesId := 5;
                        EnlistServer.serviceMask := 2;
                        EnlistServer.readSpeed := 100;
                        EnlistServer.serviceLocatorLength := 4 |});
                   Chars ["t"; "c"; "p"; zero]] 0%N)
           (mkRpc [Header (ReqEnlistServer
                     {| EnlistServer.replacesId := 5;
                        EnlistServer.serviceMask := 2;
                        EnlistServer.readSpeed := 100;
                        EnlistServer.serviceLocatorLength := 4 |});
                   Chars ["t"; "c"; "p"; zero]] 0%N)).
  - intros x Hx. simpl. apply Z.mod_small. exact Hx.
  - vm_compute. reflexivity.
  - vm_compute. reflexivity.
  - vm_compute. intros [H | [H | [H | []]]]; discriminate H.
  - vm_compute. intros [H | [H | [H | []]]]; discriminate H.
  - reflexivity.
  - reflexivity.
  - reflexivity.
Defined.

(** Verify-membership told "caller not in cluster", flag set: the warning
    is the last thing logged. *)
Lemma VerifyMembershipRpc_wait_logs_exit_run :
  events (C := Scripted.collaborators)
    (VerifyMembershipRpc_wait (mkRpc [] 0%N) true)
    (scriptedWorld [(26, 0, [])] ∅) =
  [EvWaitInternal 0%N;
   EvLog WARNING "server no longer in cluster; committing suicide" []].
Proof.
  apply (@VerifyMembershipRpc_wait_logs_exit Scripted.collaborators
           (mkRpc [] 0%N) true (scriptedWorld [(26, 0, [])] ∅)).
  reflexivity.
Defined.

(** A string of five characters: the conversion ends. *)
Lemma stringToBuffer_terminates_run :
  MockDriver.stringToBuffer (list_ascii_of_string "ab 12") [] <>
  MockDriver.OutOfFuel.
Proof.
  apply (@stringToBuffer_terminates (list_ascii_of_string "ab 12") []).
  vm_compute. discriminate.
Defined.

(** A word, then a number. *)
Lemma stringToBuffer_tokens_run :
  MockDriver.stringToBuffer (list_ascii_of_string "ab 12") [] =
  MockDriver.Done
    [MockDriver.Byte "a"; MockDriver.Byte "b"; MockDriver.Byte zero;
     MockDriver.Word 12].
Proof.
  destruct (@stringToBuffer_tokens ["a"; "b"] ["1"; "2"] []) as [Hsplit _].
  - discriminate.
  - intros [H | [H | []]]; discriminate H.
  - intros [H | [H | []]]; discriminate H.
  - vm_compute. reflexivity.
  - cbn [list_ascii_of_string]. cbn [app] in Hsplit. rewrite Hsplit.
    reflexivity.
Defined.

(** A space at the start, and two spaces in a row. *)
Lemma stringToBuffer_blank_run :
  MockDriver.stringToBuffer (list_ascii_of_string " b") [] =
  MockDriver.Done
    [MockDriver.Byte zero; MockDriver.Byte "b"; MockDriver.Byte zero] /\
  MockDriver.stringToBuffer (list_ascii_of_string "a  b") [] =
  MockDriver.Done
    [MockDriver.Byte "a"; MockDriver.Byte zero; MockDriver.Byte zero;
     MockDriver.Byte "b"; MockDriver.Byte zero].
Proof.
  destruct (@stringToBuffer_blank ["a"] ["b"] []) as [Hlead Hdouble].
  cbn [list_ascii_of_string]. cbn [app] in Hdouble. split.
  - rewrite Hlead.
    + reflexivity.
    + vm_compute. reflexivity.
  - rewrite Hdouble.
    + reflexivity.
    + discriminate.
    + intros [H | []]; discriminate H.
    + intros [H | []]; discriminate H.
    + vm_compute. reflexivity.
Defined.

Lemma stringToBuffer_word_run :
  MockDriver.stringToBuffer ["o"; "k"] [] =
  MockDriver.Done
    [MockDriver.Byte "o"; MockDriver.Byte "k"; MockDriver.Byte zero].
Proof.
  apply (@stringToBuffer_word "o" ["k"] []).
  - intros [H | [H | []]]; discriminate H.
  - intros [H | [H | []]]; discriminate H.
  - discriminate.
  - reflexivity.
  - vm_compute. reflexivity.
Defined.

Lemma stringToBuffer_decimal_run :
  MockDriver.stringToBuffer (list_ascii_of_string "-42") [] =
  MockDriver.Done [MockDriver.Word (-42)].
Proof.
  apply (@stringToBuffer_decimal "-42"
           (Decimal.Neg (Decimal.D4 (Decimal.D2 Decimal.Nil))) []).
  - reflexivity.
  - vm_compute. split; discriminate.
  - vm_compute. reflexivity.
Defined.

Lemma stringToBuffer_hexadecimal_run :
  MockDriver.stringToBuffer (list_ascii_of_string "0x7f") [] =
  MockDriver.Done [MockDriver.Word 127].
Proof.
  apply (@stringToBuffer_hexadecimal "7f"
           (Hexadecimal.D7 (Hexadecimal.Df Hexadecimal.Nil)) []).
  - reflexivity.
  - vm_compute. discriminate.
  - vm_compute. reflexivity.
Defined.

(** Twelve bytes in one chunk or in two. *)
Lemma sendPacket_payload_run :
  MockDriver.sendPacket string_of_list_ascii MockDriver.new None
    (Some [list_ascii_of_string "hello world!"]) =
  MockDriver.sendPacket string_of_list_ascii MockDriver.new None
    (Some [list_ascii_of_string "hello "; list_ascii_of_string "world?"]).
Proof.
  apply sendPacket_payload; reflexivity.
Defined.

(** A send, a release, a receive with nothing staged, a release. *)
Lemma counters_count_calls_run :
  exists this',
    MockDriver.runCalls string_of_list_ascii 9%N
      [MockDriver.CallSendPacket None None; MockDriver.CallRelease;
       MockDriver.CallTryRecvPacket 2%N; MockDriver.CallRelease]
      MockDriver.new ∅ = Some (this', ∅) /\
    MockDriver.sendPacketCount this' = 1 /\
    MockDriver.tryRecvPacketCount this' = 1 /\
    MockDriver.releaseCount this' = 2.
Proof.
  eexists. split; [reflexivity |].
  exact (@counters_count_calls string_of_list_ascii 9%N None
           [MockDriver.CallSendPacket None None; MockDriver.CallRelease;
            MockDriver.CallTryRecvPacket 2%N; MockDriver.CallRelease]
           ∅ _ ∅ eq_refl).
Defined.

(** A packet staged at address 1, then a release and a send. *)
Lemma staged_input_waits_run :
  exists this',
    MockDriver.runCalls string_of_list_ascii 9%N
      [MockDriver.CallRelease; MockDriver.CallSendPacket None None]
      (MockDriver.setInput MockDriver.new 1%N) ∅ = Some (this', ∅) /\
    MockDriver.inputReceived this' = 1%N.
Proof.
  destruct (@staged_input_waits string_of_list_ascii 9%N
              [MockDriver.CallRelease; MockDriver.CallSendPacket None None]
              (MockDriver.setInput MockDriver.new 1%N) ∅)
    as (this' & Hrun & Hin & _).
  - repeat constructor.
  - exists this'. split; [exact Hrun | exact Hin].
Defined.

End MoreRuns.
